(** * PDF math annotator: a shallow embedding of the text pipeline

    The program extracts the text of a PDF page by page, rewrites
    plausible mathematics into LaTeX markup with a sequence of regular
    expression replacements ([detectMathPatterns]), streams one event per
    page ([POST]) and renders every line by cutting it at the math
    delimiters ([MathRenderer]).

    JavaScript strings are sequences of UTF-16 code units; they are
    modelled as [list N].  Regular expressions are kept as syntax and run by
    a backtracking matcher that returns every way to match in the order in
    which the JavaScript engine tries them, so that the first element is
    the match the engine reports. *)

From Stdlib Require Import String Ascii DecimalString.
From Stdlib Require Import List NArith ZArith Bool Arith Lia.
From Stdlib Require Import SpecFloat.
Import ListNotations.
Local Open Scope string_scope.
Local Open Scope list_scope.

(* ================================================================= *)
(** ** Code units and character classes *)

Abbreviation jsstring := (list N) (only parsing).

(** An ASCII literal of the source as a sequence of code units. *)
Definition str (s : string) : jsstring :=
  map N_of_ascii (list_ascii_of_string s).

Definition cu (a : ascii) : N := N_of_ascii a.

Definition c_dollar : N := cu "$".
Definition c_eq : N := cu "=".
Definition c_amp : N := cu "&".
Definition c_nl : N := 10%N.
Definition c_space : N := cu " ".
Definition c_nbsp : N := 160%N.

Definition between (lo hi c : N) : bool := ((lo <=? c) && (c <=? hi))%N.

(** [\d] *)
Definition isDigit (c : N) : bool := between 48 57 c.

(** [[a-zA-Z0-9]] *)
Definition isAlnum (c : N) : bool :=
  between 97 122 c || between 65 90 c || between 48 57 c.

(** ECMAScript LineTerminator: LF, CR, U+2028, U+2029. *)
Definition isLineTerminator (c : N) : bool :=
  ((c =? 10) || (c =? 13) || (c =? 8232) || (c =? 8233))%N.

(** [\s], which is also the set that [String.prototype.trim] strips:
    WhiteSpace (TAB, VT, FF, SP, NBSP, ZWNBSP and the other space
    separators) together with LineTerminator. *)
Definition isWhiteSpace (c : N) : bool :=
  ((c =? 9) || (c =? 11) || (c =? 12) || (c =? 32) || (c =? 160)
   || (c =? 5760) || between 8192 8202 c || (c =? 8239) || (c =? 8287)
   || (c =? 12288) || (c =? 65279))%N
  || isLineTerminator c.

(** [.] without the [s] flag. *)
Definition isDot (c : N) : bool := negb (isLineTerminator c).

(** [[^}]] and [[^)]] *)
Definition notChar (x c : N) : bool := negb (c =? x)%N.

(** [[a-zA-Z0-9+\-*/^().\s]], the class on both sides of [=] in
    [equationPattern]. *)
Definition isEquationChar (c : N) : bool :=
  between 97 122 c || between 65 90 c || between 48 57 c
  || (c =? cu "+")%N || (c =? cu "-")%N || (c =? cu "*")%N
  || (c =? cu "/")%N || (c =? cu "^")%N || (c =? cu "(")%N
  || (c =? cu ")")%N || (c =? cu ".")%N || isWhiteSpace c.

(** [[+\-*/^=]] *)
Definition isOperatorChar (c : N) : bool :=
  ((c =? cu "+") || (c =? cu "-") || (c =? cu "*") || (c =? cu "/")
   || (c =? cu "^") || (c =? cu "="))%N.

(* ================================================================= *)
(** ** Regular expressions *)

(** The constructs the source uses: a literal character, a class, a greedy
    [+] over a class, a lazy [*?] over a class, sequence and a capturing
    group.  The groups of every pattern of the source are side by side, so
    captures are numbered in the order in which the groups close. *)
Inductive regex : Type :=
| Chr (c : N)
| Cls (p : N -> bool)
| PlusG (p : N -> bool)
| StarL (p : N -> bool)
| Cat (r1 r2 : regex)
| Grp (r : regex).

(** A way to match: what is left of the input, and the captures so far. *)
Abbreviation outcome := (jsstring * list jsstring)%type (only parsing).

(** [p+], greedy: every non-empty run of [p] at the head of [s], the
    longest first; each is given by what it leaves. *)
Fixpoint plusG (p : N -> bool) (s : jsstring) : list jsstring :=
  match s with
  | [] => []
  | c :: s' => if p c then plusG p s' ++ [s'] else []
  end.

(** [p*?], lazy: every run of [p] at the head of [s], the shortest first. *)
Fixpoint starL (p : N -> bool) (s : jsstring) : list jsstring :=
  s :: match s with
       | [] => []
       | c :: s' => if p c then starL p s' else []
       end.

(** What a group that started at [s] and stopped at [rest] captured. *)
Definition consumed (s rest : jsstring) : jsstring :=
  firstn (length s - length rest) s.

(** All the ways [r] matches at the head of [s], in backtracking order. *)
Fixpoint matches (r : regex) (s : jsstring) (caps : list jsstring)
  : list outcome :=
  match r with
  | Chr c =>
      match s with
      | x :: s' => if (x =? c)%N then [(s', caps)] else []
      | [] => []
      end
  | Cls p =>
      match s with
      | x :: s' => if p x then [(s', caps)] else []
      | [] => []
      end
  | PlusG p => map (fun rest => (rest, caps)) (plusG p s)
  | StarL p => map (fun rest => (rest, caps)) (starL p s)
  | Cat r1 r2 =>
      flat_map (fun o : outcome => matches r2 (fst o) (snd o))
               (matches r1 s caps)
  | Grp r1 =>
      map (fun o : outcome => (fst o, snd o ++ [consumed s (fst o)]))
          (matches r1 s caps)
  end.

(** The result of one match attempt: matched text, captures, rest. *)
Definition exec (r : regex) (s : jsstring)
  : option (jsstring * list jsstring * jsstring) :=
  match matches r s [] with
  | o :: _ => Some (consumed s (fst o), snd o, fst o)
  | [] => None
  end.

(** A global scan cuts the string into the characters it steps over and
    the matches it finds. *)
Inductive piece : Type :=
| Gap (c : N)
| Hit (m : jsstring) (caps : list jsstring).

(** The scan of a [g] regular expression from the start of the string:
    try at the current position; after a match resume where it ended (one
    further when the match was empty), otherwise step over one character.
    [skip] counts the characters of the current match still to pass. *)
Fixpoint scan_from (r : regex) (s : jsstring) (skip : nat) : list piece :=
  match s with
  | [] =>
      match skip with
      | O => match exec r [] with
             | Some (_, caps, _) => [Hit [] caps]
             | None => []
             end
      | S _ => []
      end
  | c :: s' =>
      match skip with
      | S k => scan_from r s' k
      | O =>
          match exec r s with
          | Some (m, caps, _) =>
              match length m with
              | O => Hit [] caps :: Gap c :: scan_from r s' 0
              | S k => Hit m caps :: scan_from r s' k
              end
          | None => Gap c :: scan_from r s' 0
          end
      end
  end.

Definition scan (r : regex) (s : jsstring) : list piece := scan_from r s 0.

(** [s.replace(r, f)] for a global [r] and a replacer function [f] of the
    match and its captures. *)
Definition replaceAll (r : regex) (f : jsstring -> list jsstring -> jsstring)
    (s : jsstring) : jsstring :=
  flat_map (fun p => match p with
                     | Gap c => [c]
                     | Hit m caps => f m caps
                     end) (scan r s).

(** [r.test(s)]: is there a match anywhere in [s]. *)
Fixpoint test (r : regex) (s : jsstring) : bool :=
  match exec r s with
  | Some _ => true
  | None => match s with
            | [] => false
            | _ :: s' => test r s'
            end
  end.

(** [s.includes(c)] for a one-character [c]. *)
Definition includes (c : N) (s : jsstring) : bool := existsb (N.eqb c) s.

Fixpoint trimStart (s : jsstring) : jsstring :=
  match s with
  | [] => []
  | c :: s' => if isWhiteSpace c then trimStart s' else s
  end.

Definition trimEnd (s : jsstring) : jsstring := rev (trimStart (rev s)).

(** [s.trim()] *)
Definition trim (s : jsstring) : jsstring := trimEnd (trimStart s).

(** *** Replacement templates

    A replacement given as a string is expanded at every match
    (GetSubstitution): [$$] is a dollar, [$&] the match, [$n] and [$nn] the
    captures when the pattern has that many, and any other [$] stands for
    itself.  The templates of the source contain neither [$`] nor [$'],
    the two forms that need the text around the match. *)
Definition digitValue (c : N) : nat := N.to_nat (c - 48).

Definition capture (caps : list jsstring) (n : nat) : option jsstring :=
  match n with
  | O => None
  | S k => nth_error caps k
  end.

Fixpoint expand (t : jsstring) (m : jsstring) (caps : list jsstring)
  : jsstring :=
  match t with
  | [] => []
  | c :: t1 =>
      if (c =? c_dollar)%N then
        match t1 with
        | [] => [c]
        | d :: t2 =>
            if (d =? c_dollar)%N then c_dollar :: expand t2 m caps
            else if (d =? c_amp)%N then m ++ expand t2 m caps
            else if isDigit d then
              let one :=
                match capture caps (digitValue d) with
                | Some x => x ++ expand t2 m caps
                | None => c :: d :: expand t2 m caps
                end in
              match t2 with
              | d2 :: t3 =>
                  if isDigit d2 then
                    match capture caps (10 * digitValue d + digitValue d2) with
                    | Some x => x ++ expand t3 m caps
                    | None => one
                    end
                  else one
              | [] => one
              end
            else c :: expand t1 m caps
        end
      else c :: expand t1 m caps
  end.

(** [s.replace(r, template)] for a global [r]. *)
Definition replaceWith (r : regex) (template : jsstring) (s : jsstring)
  : jsstring :=
  replaceAll r (expand template) s.

(* ================================================================= *)
(** ** The math pattern annotator (route.ts, [detectMathPatterns]) *)

Declare Scope regex_scope.
Delimit Scope regex_scope with re.
Infix "@@" := Cat (at level 60, right associativity) : regex_scope.
Local Open Scope regex_scope.

Definition c_sqrt : N := 8730%N.

(** [/(\d+)\/(\d+)/g] *)
Definition fractionPattern : regex :=
  Grp (PlusG isDigit) @@ Chr (cu "/") @@ Grp (PlusG isDigit).

(** [/([a-zA-Z0-9]+)\^(\d+)/g] *)
Definition exponentPattern : regex :=
  Grp (PlusG isAlnum) @@ Chr (cu "^") @@ Grp (PlusG isDigit).

(** [/([a-zA-Z0-9]+)\^{([^}]+)}/g] *)
Definition bracedExponentPattern : regex :=
  Grp (PlusG isAlnum) @@ Chr (cu "^") @@ Chr (cu "{")
  @@ Grp (PlusG (notChar (cu "}"))) @@ Chr (cu "}").

(** [/\u221A\(([^)]+)\)/g], with the square root sign written by its code *)
Definition rootParenPattern : regex :=
  Chr c_sqrt @@ Chr (cu "(") @@ Grp (PlusG (notChar (cu ")")))
  @@ Chr (cu ")").

(** [/\u221A(\d+)/g] *)
Definition rootDigitsPattern : regex := Chr c_sqrt @@ Grp (PlusG isDigit).

(** [/([a-zA-Z0-9+\-*/^().\s]+=[a-zA-Z0-9+\-*/^().\s]+)/g] *)
Definition equationPattern : regex :=
  Grp (PlusG isEquationChar @@ Chr c_eq @@ PlusG isEquationChar).

Definition fractionRule : jsstring -> jsstring :=
  replaceWith fractionPattern (str "\frac{$1}{$2}").

Definition exponentRule1 : jsstring -> jsstring :=
  replaceWith exponentPattern (str "$1^{$2}").

Definition exponentRule2 : jsstring -> jsstring :=
  replaceWith bracedExponentPattern (str "$1^{$2}").

(** The two replacements under the comment [Exponents]. *)
Definition exponentRule (s : jsstring) : jsstring :=
  exponentRule2 (exponentRule1 s).

Definition rootRule (s : jsstring) : jsstring :=
  replaceWith rootDigitsPattern (str "\sqrt{$1}")
    (replaceWith rootParenPattern (str "\sqrt{$1}") s).

(** The table [greekLetters], in the order of the object literal, which is
    the order of [Object.entries]. *)
Definition greekLetters : list (N * string) :=
  [ (945, "\alpha"); (946, "\beta"); (947, "\gamma"); (948, "\delta");
    (949, "\epsilon"); (950, "\zeta"); (951, "\eta"); (952, "\theta");
    (953, "\iota"); (954, "\kappa"); (955, "\lambda"); (956, "\mu");
    (957, "\nu"); (958, "\xi"); (960, "\pi"); (961, "\rho");
    (963, "\sigma"); (964, "\tau"); (965, "\upsilon"); (966, "\phi");
    (967, "\chi"); (968, "\psi"); (969, "\omega");
    (915, "\Gamma"); (916, "\Delta"); (920, "\Theta"); (923, "\Lambda");
    (926, "\Xi"); (928, "\Pi"); (931, "\Sigma"); (934, "\Phi");
    (936, "\Psi"); (937, "\Omega") ]%N.

(** The template string [`$${latex}$`]: a dollar, the command, a dollar. *)
Definition symbolTemplate (latex : string) : jsstring :=
  c_dollar :: str latex ++ [c_dollar].

(** One turn of the [forEach]: [new RegExp(char, 'g')] replaced by the
    template. *)
Definition replaceSymbol (processed : jsstring) (entry : N * string)
  : jsstring :=
  replaceWith (Chr (fst entry)) (symbolTemplate (snd entry)) processed.

Definition greekRule (s : jsstring) : jsstring :=
  fold_left replaceSymbol greekLetters s.

(** The eleven operator replacements, in the order of the source; the
    templates are the literals ['$\\leq$'] and so on. *)
Definition operatorSymbols : list (N * string) :=
  [ (8804, "\leq"); (8805, "\geq"); (8800, "\neq"); (177, "\pm");
    (8734, "\infty"); (8721, "\sum"); (8747, "\int"); (8706, "\partial");
    (8711, "\nabla"); (215, "\times"); (247, "\div") ]%N.

Definition operatorRule (s : jsstring) : jsstring :=
  fold_left replaceSymbol operatorSymbols s.

(** [`$$${match.trim()}$$`] *)
Definition wrapBlock (m : jsstring) : jsstring :=
  str "$$" ++ trim m ++ str "$$".

(** The replacer function of the equation rule. *)
Definition equationReplacer (m : jsstring) (_ : list jsstring) : jsstring :=
  if includes c_dollar m then m
  else if test (Cls isOperatorChar) m && test (Cls isDigit) m
       then wrapBlock m
       else m.

Definition equationRule : jsstring -> jsstring :=
  replaceAll equationPattern equationReplacer.

Definition detectMathPatterns (text : jsstring) : jsstring :=
  let processed := text in
  let processed := fractionRule processed in
  let processed := exponentRule1 processed in
  let processed := exponentRule2 processed in
  let processed := rootRule processed in
  let processed := greekRule processed in
  let processed := operatorRule processed in
  let processed := equationRule processed in
  processed.

(* ================================================================= *)
(** ** The line reconstructor (route.ts, the [forEach] over the text items) *)

(** *** Numbers

    A JavaScript number is an IEEE 754 double: a [spec_float] with 53 bits
    of precision and the exponent bound 1024, that is a zero or an infinity
    with its sign, NaN, or a finite [(-1)^s * m * 2^e].  The doubles are
    the values that [isDouble] accepts (canonical mantissa and exponent);
    the operations are those of SpecFloat, which round to nearest, ties to
    even. *)
Abbreviation number := spec_float (only parsing).


(** The double nearest to [m * 2^e]; a numeric literal of the source is
    the double nearest to its value. *)
Definition numberOf (m e : Z) : number := binary_normalize 53 1024 m e false.

Definition integer (z : Z) : number := numberOf z 0.

(** [x - y] *)
Definition subtract (x y : number) : number := SFsub 53 1024 x y.

(** [Math.abs(x)] *)
Definition MathAbs (x : number) : number := SFabs x.

(** [x > y], false when one of them is NaN. *)
Definition greaterThan (x y : number) : bool := SFltb y x.

(** ToBoolean of a number: false for [+0], [-0] and NaN. *)
Definition ToBoolean (x : number) : bool :=
  match x with
  | S754_zero _ => false
  | S754_nan => false
  | S754_infinity _ => true
  | S754_finite _ _ _ => true
  end.

(** An entry of [textContent.items]: a text item with its string and the
    baseline [transform[5]], a number, or a marked-content item, which has
    no [str]. *)
Inductive textItem : Type :=
| TextItem (itemStr : jsstring) (y : number)
| MarkedContent.

(** The loop state: [pageText] and [lastY]. *)
Definition reconState : Type := (jsstring * number)%type.

(** [lastY && Math.abs(item.transform[5] - lastY) > 5] *)
Definition breaksLine (lastY y : number) : bool :=
  ToBoolean lastY && greaterThan (MathAbs (subtract y lastY)) (integer 5).

(** The body of the [forEach]. *)
Definition addItem (st : reconState) (item : textItem) : reconState :=
  match item with
  | TextItem itemStr y =>
      let (pageText, lastY) := st in
      let pageText :=
        if breaksLine lastY y then pageText ++ [c_nl] else pageText in
      (pageText ++ itemStr ++ [c_space], y)
  | MarkedContent => st
  end.

(** [pageText] when the [forEach] is over. *)
Definition accumulateText (textItems : list textItem) : jsstring :=
  fst (fold_left addItem textItems ([], integer 0)).

(** [/ +/g] *)
Definition spacesPattern : regex := PlusG (N.eqb c_space).

(** [pageText.replace(/ +/g, ' ').trim()] *)
Definition cleanUp (pageText : jsstring) : jsstring :=
  trim (replaceWith spacesPattern (str " ") pageText).

Definition reconstructLines (textItems : list textItem) : jsstring :=
  cleanUp (accumulateText textItems).

(* ================================================================= *)
(** ** The page stream driver (route.ts, [POST]) *)

Inductive event : Type :=
| Progress (message : jsstring)
| PageEvent (pageNum : nat) (content : jsstring)
| Complete (message : jsstring)
| ErrorEvent (message : jsstring).

(** What an awaited call can throw: an [Error] with its message, or some
    other value. *)
Inductive thrown : Type :=
| ErrorObject (message : jsstring)
| OtherValue.

(** The outside world of one request: what [formData], [getDocument],
    [getPage] and [getTextContent] answer. *)
Inductive pageAnswer : Type :=
| PageFails (e : thrown)
| PageItems (textItems : list textItem).

Inductive documentAnswer : Type :=
| DecodeFails (e : thrown)
| Document (numPages : nat) (getPage : nat -> pageAnswer).

Inductive request : Type :=
| FormDataFails (e : thrown)
| NoFile
| File (pdf : documentAnswer).

(** The stream controller: the queue of events and whether it is closed. *)
Record controller : Type := mkController {
  queue : list event;
  closed : bool
}.

(** Code that enqueues, closes and may throw. *)
Definition action (A : Type) : Type := controller -> (A + thrown) * controller.

Definition ret {A : Type} (a : A) : action A := fun ctl => (inl a, ctl).

Definition bind {A B : Type} (m : action A) (k : A -> action B) : action B :=
  fun ctl =>
    match m ctl with
    | (inl a, ctl') => k a ctl'
    | (inr e, ctl') => (inr e, ctl')
    end.

Notation "m ;;; k" := (bind m (fun _ => k))
  (at level 61, right associativity).

Definition throw {A : Type} (e : thrown) : action A := fun ctl => (inr e, ctl).

Definition enqueue (e : event) : action unit :=
  fun ctl => (inl tt, mkController (queue ctl ++ [e]) (closed ctl)).

Definition close : action unit :=
  fun ctl => (inl tt, mkController (queue ctl) true).

Definition tryCatch (body : action unit) (handler : thrown -> action unit)
  : action unit :=
  fun ctl =>
    match body ctl with
    | (inl tt, ctl') => (inl tt, ctl')
    | (inr e, ctl') => handler e ctl'
    end.

Definition decimal (n : nat) : jsstring :=
  str (NilZero.string_of_uint (Nat.to_uint n)).

(** [error instanceof Error ? error.message : 'Failed to process PDF'] *)
Definition errorMessage (e : thrown) : jsstring :=
  match e with
  | ErrorObject message => message
  | OtherValue => str "Failed to process PDF"
  end.

(** One turn of the [for] loop over the pages. *)
Definition processPage (numPages : nat) (getPage : nat -> pageAnswer)
    (pageNum : nat) : action unit :=
  enqueue (Progress (str "Processing page " ++ decimal pageNum ++ str " of "
                     ++ decimal numPages ++ str "...")) ;;;
  match getPage pageNum with
  | PageFails e => throw e
  | PageItems textItems =>
      let pageText := reconstructLines textItems in
      let processedText := detectMathPatterns pageText in
      enqueue (PageEvent pageNum processedText)
  end.

(** [for (let pageNum = 1; pageNum <= numPages; pageNum++)] from the turn
    of [pageNum] on, with [todo] the number of turns still to run. *)
Fixpoint pageLoop (numPages : nat) (getPage : nat -> pageAnswer)
    (pageNum todo : nat) : action unit :=
  match todo with
  | O => ret tt
  | S todo' =>
      processPage numPages getPage pageNum ;;;
      pageLoop numPages getPage (S pageNum) todo'
  end.

(** The [try] block of [start]. *)
Definition startBody (req : request) : action unit :=
  match req with
  | FormDataFails e => throw e
  | NoFile =>
      enqueue (ErrorEvent (str "No file provided")) ;;;
      close
  | File pdf =>
      enqueue (Progress (str "Loading PDF...")) ;;;
      match pdf with
      | DecodeFails e => throw e
      | Document numPages getPage =>
          enqueue (Progress (str "Processing " ++ decimal numPages
                             ++ str " pages...")) ;;;
          pageLoop numPages getPage 1 numPages ;;;
          enqueue (Complete (str "Processing complete!")) ;;;
          close
      end
  end.

(** The [catch] block. *)
Definition startCatch (e : thrown) : action unit :=
  enqueue (ErrorEvent (errorMessage e)) ;;;
  close.

Definition start (req : request) : action unit :=
  tryCatch (startBody req) startCatch.

(** The stream of a request: the controller after [start] has run on a
    fresh one. *)
Definition POST (req : request) : controller :=
  snd (start req (mkController [] false)).

(* ================================================================= *)
(** ** The markup segmenter (MathRenderer, the body of [lines.forEach]) *)

(** [/\$\$(.*?)\$\$/g] *)
Definition displayMathRegex : regex :=
  Chr c_dollar @@ Chr c_dollar @@ Grp (StarL isDot)
  @@ Chr c_dollar @@ Chr c_dollar.

(** [/\$(.*?)\$/g] *)
Definition inlineMathRegex : regex :=
  Chr c_dollar @@ Grp (StarL isDot) @@ Chr c_dollar.

(** A child appended to [lineDiv]: a text span, or a math span holding
    [match[1]] and the display mode it is rendered in. *)
Inductive span : Type :=
| TextSpan (textContent : jsstring)
| MathSpan (displayMode : bool) (tex : jsstring).

(** The literal form of a span: its text, or the fallback
    [`$$${match[1]}$$`], [`$${match[1]}$`] of a math span. *)
Definition literal (sp : span) : jsstring :=
  match sp with
  | TextSpan textContent => textContent
  | MathSpan true tex => str "$$" ++ tex ++ str "$$"
  | MathSpan false tex => str "$" ++ tex ++ str "$"
  end.

(** [if (match.index > lastIndex)], the text span before a match. *)
Definition textBefore (pending : jsstring) : list span :=
  match pending with
  | [] => []
  | _ :: _ => [TextSpan pending]
  end.

(** A [while ((match = regex.exec(line)) !== null)] loop, run over the
    pieces of the scan: [pending] is [line.substring(lastIndex, position)],
    the characters passed since the last match.  Returns the spans appended
    and the characters after the last match, [line.substring(lastIndex)]. *)
Fixpoint execLoop (displayMode : bool) (ps : list piece) (pending : jsstring)
  : list span * jsstring :=
  match ps with
  | [] => ([], pending)
  | Gap c :: ps' => execLoop displayMode ps' (pending ++ [c])
  | Hit _ caps :: ps' =>
      let (spans, rest) := execLoop displayMode ps' [] in
      (textBefore pending ++ MathSpan displayMode (nth 0 caps []) :: spans,
       rest)
  end.

Definition isHit (p : piece) : bool :=
  match p with
  | Hit _ _ => true
  | Gap _ => false
  end.

(** The spans appended to [lineDiv] by the two loops and the remaining
    text (lines 27 to 90). *)
Definition segments (line : jsstring) : list span :=
  let displayPieces := scan displayMathRegex line in
  let hasDisplayMath := existsb isHit displayPieces in
  let (spans, rest) :=
    if hasDisplayMath then execLoop true displayPieces []
    else execLoop false (scan inlineMathRegex line) [] in
  spans ++ textBefore rest.

(** The content of [lineDiv]: the spans, or, when there is none, the text
    [line || '\u00A0']. *)
Definition renderLine (line : jsstring) : list span :=
  match segments line with
  | [] => [TextSpan (match line with [] => [c_nbsp] | _ :: _ => line end)]
  | spans => spans
  end.

(* ================================================================= *)
(** ** Notions used to state the properties *)

(** The example line of the specification; 960 is the letter pi. *)
Definition exampleLine : jsstring :=
  str "E=mc^2 and " ++ [960%N] ++ str " is useful".

(** *** Maximal runs of a character class *)

Inductive token : Type :=
| Run (text : jsstring)
| Sep (c : N).

(** A string cut into the maximal runs of [p] and the characters between
    them. *)
Fixpoint tokens (p : N -> bool) (s : jsstring) : list token :=
  match s with
  | [] => []
  | c :: s' =>
      if p c then
        match tokens p s' with
        | Run a :: ts => Run (c :: a) :: ts
        | ts => Run [c] :: ts
        end
      else Sep c :: tokens p s'
  end.

(** The equation rule as the specification words it: every maximal run
    over the class with [=] in it that has an [=], an operator and a digit
    is wrapped, trimmed. *)
Definition isEquationCharOrEq (c : N) : bool :=
  isEquationChar c || (c =? c_eq)%N.

Definition wrapRunAsSpecified (t : token) : jsstring :=
  match t with
  | Run a =>
      if includes c_eq a && existsb isOperatorChar a && existsb isDigit a
      then wrapBlock a else a
  | Sep c => [c]
  end.

Definition equationRuleAsSpecified (s : jsstring) : jsstring :=
  flat_map wrapRunAsSpecified (tokens isEquationCharOrEq s).

(** The equation rule by runs of the class of the pattern, which has no
    [=]: a run, one [=] and the next run make a match, wrapped when it has
    a digit; the scan resumes after it. *)
Definition wrapIfDigit (m : jsstring) : jsstring :=
  if existsb isDigit m then wrapBlock m else m.

Fixpoint wrapTokens (ts : list token) : jsstring :=
  match ts with
  | [] => []
  | Sep c :: ts1 => c :: wrapTokens ts1
  | Run a :: ts1 =>
      match ts1 with
      | Sep e :: Run b :: ts3 =>
          if (e =? c_eq)%N then wrapIfDigit (a ++ e :: b) ++ wrapTokens ts3
          else a ++ wrapTokens ts1
      | _ => a ++ wrapTokens ts1
      end
  end.

(** *** Substitution of symbols, character by character *)

Fixpoint lookupSymbol (table : list (N * string)) (c : N) : option string :=
  match table with
  | [] => None
  | (k, latex) :: table' =>
      if (c =? k)%N then Some latex else lookupSymbol table' c
  end.

Definition substSymbol (table : list (N * string)) (c : N) : jsstring :=
  match lookupSymbol table c with
  | Some latex => symbolTemplate latex
  | None => [c]
  end.

(** *** Balanced delimiters

    A reader of delimited text: outside any math, after one opening
    dollar, inside an inline region, inside a block region before and after
    its first character, after the first dollar that closes a block, or
    lost. *)
Inductive delimState : Type :=
| Outside | Opened | InInline | InBlockStart | InBlock | Closing | Lost.

Definition delimStep (st : delimState) (c : N) : delimState :=
  let dollar := (c =? c_dollar)%N in
  match st with
  | Outside => if dollar then Opened else Outside
  | Opened => if dollar then InBlockStart else InInline
  | InInline => if dollar then Outside else InInline
  | InBlockStart => if dollar then Lost else InBlock
  | InBlock => if dollar then Closing else InBlock
  | Closing => if dollar then Outside else Lost
  | Lost => Lost
  end.

Definition isOutside (st : delimState) : bool :=
  match st with
  | Outside => true
  | _ => false
  end.

Definition delimRun (st : delimState) (s : jsstring) : delimState :=
  fold_left delimStep s st.

(** The text is plain text, inline regions [$...$] and block regions
    [$$...$$], each region non-empty and without a dollar inside. *)
Definition balanced (s : jsstring) : bool :=
  isOutside (delimRun Outside s).

(** *** Line breaks and baselines *)

Definition countBreaks (s : jsstring) : nat := count_occ N.eq_dec s c_nl.

(** The baselines of the text items, in order. *)
Fixpoint baselines (textItems : list textItem) : list number :=
  match textItems with
  | [] => []
  | TextItem _ y :: rest => y :: baselines rest
  | MarkedContent :: rest => baselines rest
  end.

(** The line breaks that the strings of the items bring themselves. *)
Fixpoint ownBreaks (textItems : list textItem) : nat :=
  match textItems with
  | [] => 0
  | TextItem itemStr _ :: rest => countBreaks itemStr + ownBreaks rest
  | MarkedContent :: rest => ownBreaks rest
  end.

(** The baseline [y2] is more than 5 away from [y1]: the difference
    [y2 - y1], as the double arithmetic gives it, has an absolute value
    above 5.  It is false when the difference is NaN. *)
Definition farApart (y1 y2 : number) : bool :=
  greaterThan (MathAbs (subtract y2 y1)) (integer 5).

(** The boundaries at which consecutive baselines are more than 5 apart. *)
Fixpoint crossings (ys : list number) : nat :=
  match ys with
  | [] => 0
  | y1 :: rest =>
      match rest with
      | [] => 0
      | y2 :: _ => (if farApart y1 y2 then 1 else 0) + crossings rest
      end
  end.

(** *** Events *)

Definition pageNumbers (q : list event) : list nat :=
  flat_map (fun e => match e with
                     | PageEvent pageNum _ => [pageNum]
                     | _ => []
                     end) q.

Definition isTerminal (e : event) : bool :=
  match e with
  | Complete _ | ErrorEvent _ => true
  | _ => false
  end.

(** *** Auxiliary notions for the proofs *)

(** The text a piece of a scan stands for. *)
Definition pieceText (p : piece) : jsstring :=
  match p with
  | Gap c => [c]
  | Hit m _ => m
  end.

(** A property of every match of a scan. *)
Definition hitsSatisfy (P : jsstring -> list jsstring -> Prop)
    (ps : list piece) : Prop :=
  Forall (fun p => match p with
                   | Gap _ => True
                   | Hit m caps => P m caps
                   end) ps.

(** A run of [p] cannot go on into [r]. *)
Definition stops (p : N -> bool) (r : jsstring) : Prop :=
  match r with
  | [] => True
  | c :: _ => p c = false
  end.

(** The number of capturing groups of a pattern. *)
Fixpoint groups (r : regex) : nat :=
  match r with
  | Chr _ | Cls _ | PlusG _ | StarL _ => 0
  | Cat r1 r2 => groups r1 + groups r2
  | Grp r1 => S (groups r1)
  end.

(** After a run, [c] followed by a character of [p] does not come. *)
Definition cannotFollow (c : N) (p : N -> bool) (r : jsstring) : Prop :=
  match r with
  | [] => True
  | x :: r1 => x = c -> stops p r1
  end.

(** The replacer of the equation rule without its first test. *)
Definition equationReplacerUnguarded (m : jsstring) (_ : list jsstring)
  : jsstring :=
  if test (Cls isOperatorChar) m && test (Cls isDigit) m
  then wrapBlock m
  else m.

(** The delimiter of a math span. *)
Definition delimiter (displayMode : bool) : jsstring :=
  if displayMode then str "$$" else str "$".

(** The controller after some more events. *)
Definition after (ctl : controller) (evs : list event) : controller :=
  mkController (queue ctl ++ evs) (closed ctl).

Definition sameText (a b : jsstring) : bool :=
  if list_eq_dec N.eq_dec a b then true else false.

Definition noSymbol (table : list (N * string)) (c : N) : bool :=
  match lookupSymbol table c with
  | Some _ => false
  | None => true
  end.

(** A table whose replacements can be run one after the other: every
    template expands to itself and holds no symbol of a later entry. *)
Fixpoint sequentialOk (table : list (N * string)) : bool :=
  match table with
  | [] => true
  | (k, latex) :: table' =>
      sameText (expand (symbolTemplate latex) [k] []) (symbolTemplate latex)
      && forallb (noSymbol table') (symbolTemplate latex)
      && sequentialOk table'
  end.

(** A character other than the dollar. *)
Definition notDollar (c : N) : Prop := c <> c_dollar.

(** The characters of a LaTeX command name: the backslash and letters. *)
Definition isCommandChar (c : N) : bool :=
  (c =? 92)%N || between 65 90 c || between 97 122 c.

Definition isCommand (name : jsstring) : bool :=
  match name with
  | [] => false
  | _ :: _ => forallb isCommandChar name
  end.

(** Text in which the dollars are those of substituted symbols: the shape
    of the text when the symbol rules are done. *)
Inductive marked : jsstring -> Prop :=
| marked_nil : marked []
| marked_plain (c : N) (s : jsstring) :
    notDollar c -> marked s -> marked (c :: s)
| marked_symbol (latex : string) (s : jsstring) :
    isCommand (str latex) = true -> marked s ->
    marked (symbolTemplate latex ++ s).






(** *** Sample inputs *)





(** A document of one page whose extraction fails. *)
Definition failingDocument : request :=
  File (Document 1 (fun _ => PageFails OtherValue)).

(* ================================================================= *)
(** ** The renderer of a content (MathRenderer, the effect) *)

(** [s.split(sep)] for a separator of one character. *)
Fixpoint split (sep : N) (s : jsstring) : list jsstring :=
  match s with
  | [] => [[]]
  | c :: s' =>
      if (c =? sep)%N then [] :: split sep s'
      else match split sep s' with
           | l :: ls => (c :: l) :: ls
           | [] => [[c]]
           end
  end.

(** The children of the container when the effect has run: one line
    element, with its content, for every line of [content.split('\n')]. *)
Definition MathRenderer (content : jsstring) : list (list span) :=
  map renderLine (split c_nl content).

(* ================================================================= *)
(** ** The page of the client (part_000, [Home]) *)

(** The file of the input element, as far as the page looks at it. *)
Record selectedFile : Type := mkSelectedFile {
  fileType : jsstring
}.

(** What [fetch] and the reader of the body answer: [fetch] throws, the
    response is not ok, it has no body, or the reader gives chunks, already
    decoded by [decoder.decode(value, { stream: true })], and then ends or
    throws. *)
Inductive response : Type :=
| FetchFails (e : thrown)
| NotOk
| NoBody
| Body (chunks : list jsstring) (failure : option thrown).

Section Home.

(** A value that [JSON.parse] gives, as the fields [message] and [data] of
    a message hold it. *)
Variable value : Type.

(** What the page sees of [JSON.parse(data)]: it throws (or reading
    [parsed.type] does), or [parsed.type] is one of the four known types,
    or something else. *)
Inductive parsedLine : Type :=
| ParseFails
| ProgressMsg (message : value)
| PageMsg (data : value)
| CompleteMsg
| ErrorMsg (message : value)
| OtherMsg.

Variable parseData : jsstring -> parsedLine.

(** A text of the page: a literal of the source or a value received. *)
Inductive shown : Type :=
| Literal (text : jsstring)
| Received (v : value).

(** The state of the component. *)
Record homeState : Type := mkHome {
  file : option selectedFile;
  processing : bool;
  progress : shown;
  results : list value;
  error : shown
}.

Definition setFile (f : option selectedFile) (st : homeState) : homeState :=
  mkHome f (processing st) (progress st) (results st) (error st).

Definition setProcessing (b : bool) (st : homeState) : homeState :=
  mkHome (file st) b (progress st) (results st) (error st).

Definition setProgress (t : shown) (st : homeState) : homeState :=
  mkHome (file st) (processing st) t (results st) (error st).

Definition setResults (r : list value) (st : homeState) : homeState :=
  mkHome (file st) (processing st) (progress st) r (error st).

Definition setError (t : shown) (st : homeState) : homeState :=
  mkHome (file st) (processing st) (progress st) (results st) t.

(** [handleFileChange], given [e.target.files[0]] if there is one. *)
Definition handleFileChange (selected : option selectedFile)
    (st : homeState) : homeState :=
  match selected with
  | None => st
  | Some selectedFile =>
      if sameText (fileType selectedFile) (str "application/pdf")
      then setResults [] (setError (Literal []) (setFile (Some selectedFile) st))
      else setFile None (setError (Literal (str "Please select a PDF file")) st)
  end.

(** [line.startsWith(prefix)] *)
Definition startsWith (prefix line : jsstring) : bool :=
  sameText (firstn (length prefix) line) prefix.

(** The body of [for (const line of lines)]. *)
Definition handleLine (st : homeState) (line : jsstring) : homeState :=
  if startsWith (str "data: ") line then
    let data := skipn 6 line in
    match parseData data with
    | ProgressMsg message => setProgress (Received message) st
    | PageMsg data => setResults (results st ++ [data]) st
    | CompleteMsg => setProgress (Literal (str "Complete!")) st
    | ErrorMsg message => setError (Received message) st
    | OtherMsg => st
    | ParseFails => st
    end
  else st.

(** One turn of [while (true)] in which the reader gives a chunk: the
    buffer takes the chunk, all its lines but the last are handled and the
    last, [lines.pop() || ''], is the new buffer. *)
Definition handleChunk (acc : jsstring * homeState) (chunk : jsstring)
  : jsstring * homeState :=
  let (buffer, st) := acc in
  let buffer := buffer ++ chunk in
  let lines := split c_nl buffer in
  (last lines [], fold_left handleLine (removelast lines) st).

(** [err instanceof Error ? err.message : 'An error occurred'] *)
Definition clientErrorMessage (e : thrown) : jsstring :=
  match e with
  | ErrorObject message => message
  | OtherValue => str "An error occurred"
  end.

(** [handleUpload], given what the request answers. *)
Definition handleUpload (resp : response) (st : homeState) : homeState :=
  match file st with
  | None => setError (Literal (str "Please select a file first")) st
  | Some _ =>
      let st := setResults []
                  (setProgress (Literal (str "Uploading PDF..."))
                     (setError (Literal []) (setProcessing true st))) in
      let st :=
        match resp with
        | FetchFails e => setError (Literal (clientErrorMessage e)) st
        | NotOk => setError (Literal (str "Failed to process PDF")) st
        | NoBody => setError (Literal (str "No response body")) st
        | Body chunks failure =>
            let st := snd (fold_left handleChunk chunks ([], st)) in
            match failure with
            | Some e => setError (Literal (clientErrorMessage e)) st
            | None => st
            end
        end in
      setProcessing false st
  end.

End Home.

Arguments ParseFails {value}.
Arguments ProgressMsg {value} message.
Arguments PageMsg {value} data.
Arguments CompleteMsg {value}.
Arguments ErrorMsg {value} message.
Arguments OtherMsg {value}.
Arguments Literal {value} text.
Arguments Received {value} v.
Arguments mkHome {value} file processing progress results error.
Arguments file {value} h.
Arguments processing {value} h.
Arguments progress {value} h.
Arguments results {value} h.
Arguments error {value} h.
Arguments handleLine {value} parseData st line.
Arguments handleChunk {value} parseData acc chunk.
Arguments handleUpload {value} parseData resp st.
Arguments handleFileChange {value} selected st.

(* ================================================================= *)
(** ** Further notions used to state properties *)

(** Every match of the pattern holds the character [c]: the pattern has
    it as a literal outside any repetition. *)
Fixpoint mustContain (c : N) (r : regex) : bool :=
  match r with
  | Chr x => (x =? c)%N
  | Cat r1 r2 => mustContain c r1 || mustContain c r2
  | Grp r1 => mustContain c r1
  | Cls _ | PlusG _ | StarL _ => false
  end.

(** The characters that a rule of the annotator looks for: the slash, the
    caret, the root sign, the equals sign and the symbols of the two
    tables. *)
Definition isMathTrigger (c : N) : bool :=
  (c =? cu "/")%N || (c =? cu "^")%N || (c =? c_sqrt)%N || (c =? c_eq)%N
  || negb (noSymbol greekLetters c) || negb (noSymbol operatorSymbols c).

(** A character that is not a digit. *)
Definition notDigit (c : N) : Prop := isDigit c = false.

(** The two replacements of the root rule, each by itself. *)
Definition rootParenRule : jsstring -> jsstring :=
  replaceWith rootParenPattern (str "\sqrt{$1}").

Definition rootDigitsRule : jsstring -> jsstring :=
  replaceWith rootDigitsPattern (str "\sqrt{$1}").

(** No two spaces in a row. *)
Fixpoint noDoubleSpace (s : jsstring) : bool :=
  match s with
  | [] => true
  | a :: t =>
      negb (N.eqb c_space a
            && match t with
               | b :: _ => N.eqb c_space b
               | [] => false
               end)
      && noDoubleSpace t
  end.

(** The boundaries with a baseline more than 5 away from the one before,
    counted from the value of [lastY], which is no baseline when it is 0
    or NaN. *)
Definition crossingsAfter (lastY : number) (ys : list number) : nat :=
  if ToBoolean lastY then crossings (lastY :: ys) else crossings ys.

(** The progress event of a page. *)
Definition pageProgress (pageNum numPages : nat) : event :=
  Progress (str "Processing page " ++ decimal pageNum ++ str " of "
            ++ decimal numPages ++ str "...").

(** The content of the page event of an extracted page. *)
Definition pageContent (answer : pageAnswer) : jsstring :=
  match answer with
  | PageItems textItems => detectMathPatterns (reconstructLines textItems)
  | PageFails _ => []
  end.

(** The two events of a page that is extracted. *)
Definition pageEvents (numPages : nat) (getPage : nat -> pageAnswer)
    (pageNum : nat) : list event :=
  [pageProgress pageNum numPages;
   PageEvent pageNum (pageContent (getPage pageNum))].

(** The two events before the pages. *)
Definition streamHeader (numPages : nat) : list event :=
  [Progress (str "Loading PDF...");
   Progress (str "Processing " ++ decimal numPages ++ str " pages...")].

(** [lines.join(sep)] *)
Fixpoint join (sep : jsstring) (lines : list jsstring) : jsstring :=
  match lines with
  | [] => []
  | l :: rest =>
      match rest with
      | [] => l
      | _ :: _ => l ++ sep ++ join sep rest
      end
  end.

(** No two text spans in a row. *)
Fixpoint mathSeparated (spans : list span) : bool :=
  match spans with
  | [] => true
  | TextSpan _ :: rest =>
      match rest with
      | TextSpan _ :: _ => false
      | _ => mathSeparated rest
      end
  | MathSpan _ _ :: rest => mathSeparated rest
  end.

(** A line [data: <payload>] and the frame [data: <payload>\n\n] that the
    driver sends for an event. *)
Definition dataLine (payload : jsstring) : jsstring :=
  str "data: " ++ payload.

Definition frame (payload : jsstring) : jsstring :=
  dataLine payload ++ [c_nl; c_nl].

(** What the page does with the data of a line. *)
Definition handleData {value : Type} (parseData : jsstring -> parsedLine value)
    (st : homeState value) (data : jsstring) : homeState value :=
  handleLine parseData st (dataLine data).

(** The data of the page messages among lines, in order. *)
Definition pagesOf {value : Type} (parseData : jsstring -> parsedLine value)
    (lines : list jsstring) : list value :=
  flat_map (fun line =>
              if startsWith (str "data: ") line then
                match parseData (skipn 6 line) with
                | PageMsg data => [data]
                | _ => []
                end
              else []) lines.

(** The lines of a stream that end with a line break. *)
Definition completeLines (stream : jsstring) : list jsstring :=
  removelast (split c_nl stream).

(** A reading of messages in which every data is a page message holding
    that data. *)
Definition everyLineAPage (data : jsstring) : parsedLine jsstring :=
  PageMsg data.

(** A state of the page with a file chosen. *)
Definition readyState : homeState jsstring :=
  mkHome (Some (mkSelectedFile (str "application/pdf"))) false
         (Literal []) [str "old"] (Literal []).

(** What the page reads of an event that it parses back: [msg] gives the
    value of a message text and [page] the value of the [data] of a page
    event. *)
Definition received {value : Type} (msg : jsstring -> value)
    (page : nat -> jsstring -> value) (e : event) : parsedLine value :=
  match e with
  | Progress message => ProgressMsg (msg message)
  | PageEvent pageNum content => PageMsg (page pageNum content)
  | Complete _ => CompleteMsg
  | ErrorEvent message => ErrorMsg (msg message)
  end.

(** The bytes of a stream, decoded: every event enqueued as
    [`data: ${JSON.stringify(...)}\n\n`], with [stringify] for
    [JSON.stringify] of the object of the event. *)
Definition wire (stringify : event -> jsstring) (req : request) : jsstring :=
  flat_map (fun e => frame (stringify e)) (queue (POST req)).

(** The page events of a queue, read by [page]. *)
Definition pagesSent {value : Type} (page : nat -> jsstring -> value)
    (q : list event) : list value :=
  flat_map (fun e => match e with
                     | PageEvent pageNum content => [page pageNum content]
                     | _ => []
                     end) q.

(** An encoder and a reader of events for an example: a letter for the
    type, then the text. *)
Definition tagEvent (e : event) : jsstring :=
  match e with
  | Progress message => cu "P" :: message
  | PageEvent _ content => cu "G" :: content
  | Complete _ => [cu "C"]
  | ErrorEvent message => cu "E" :: message
  end.

Definition readTag (data : jsstring) : parsedLine jsstring :=
  match data with
  | [] => ParseFails
  | c :: text =>
      if (c =? cu "P")%N then ProgressMsg text
      else if (c =? cu "G")%N then PageMsg text
      else if (c =? cu "C")%N then CompleteMsg
      else if (c =? cu "E")%N then ErrorMsg text
      else OtherMsg
  end.

(** A document of one page with one fragment. *)
Definition onePageDocument : request :=
  File (Document 1 (fun _ => PageItems [TextItem (str "x=1") (integer 10)])).

(** The state in which the component starts: the values given to
    [useState]. *)
Definition initialState {value : Type} : homeState value :=
  mkHome None false (Literal []) [] (Literal []).

(** What the user does on the page: a change of the file input, or a click
    on the button, with what the request answers. *)
Inductive userAction : Type :=
| ChooseFile (selected : option selectedFile)
| ClickUpload (resp : response).

Definition act {value : Type} (parseData : jsstring -> parsedLine value)
    (st : homeState value) (a : userAction) : homeState value :=
  match a with
  | ChooseFile selected => handleFileChange selected st
  | ClickUpload resp => handleUpload parseData resp st
  end.

(** A choice of a text file, of a PDF, and an upload that is answered
    without a body. *)
Definition sampleActions : list userAction :=
  [ChooseFile (Some (mkSelectedFile (str "text/plain")));
   ChooseFile (Some (mkSelectedFile (str "application/pdf")));
   ClickUpload NoBody].

(* ================================================================= *)
(** * Properties *)

(** ** Lists *)

Lemma run_split (p : N -> bool) (s : jsstring) :
  exists a r, s = a ++ r /\ forallb p a = true /\ stops p r.
Proof.
  induction s as [|c s IH].
  - exists [], []. repeat split.
  - destruct (p c) eqn:Hc.
    + destruct IH as (a & r & -> & Ha & Hr).
      exists (c :: a), r. simpl. rewrite Hc, Ha. repeat split. exact Hr.
    + exists [], (c :: s). repeat split. exact Hc.
Qed.

Lemma consumed_app (m rest : jsstring) : consumed (m ++ rest) rest = m.
Proof.
  unfold consumed. rewrite length_app.
  replace (length m + length rest - length rest) with (length m + 0) by lia.
  rewrite firstn_app_2. simpl. apply app_nil_r.
Qed.

Lemma flat_map_nil {A B : Type} (f : A -> list B) (l : list A) :
  (forall x, In x l -> f x = []) -> flat_map f l = [].
Proof.
  induction l as [|x l IH]; intros H; simpl.
  - reflexivity.
  - rewrite (H x (or_introl eq_refl)), IH.
    + reflexivity.
    + intros y Hy. apply H. right. exact Hy.
Qed.

Lemma flat_map_map {A B C : Type} (g : A -> B) (f : B -> list C) (l : list A) :
  flat_map f (map g l) = flat_map (fun x => f (g x)) l.
Proof.
  induction l as [|x l IH]; simpl; [reflexivity | now rewrite IH].
Qed.

Lemma flat_map_flat_map {A B C : Type} (g : A -> list B) (f : B -> list C)
    (l : list A) :
  flat_map f (flat_map g l) = flat_map (fun x => flat_map f (g x)) l.
Proof.
  induction l as [|x l IH]; simpl; [reflexivity|].
  now rewrite flat_map_app, IH.
Qed.

(** ** The matcher *)

Section Runs.

Variable p : N -> bool.

Lemma plusG_inv (s rest : jsstring) :
  In rest (plusG p s) ->
  exists m, s = m ++ rest /\ m <> [] /\ forallb p m = true.
Proof.
  revert rest. induction s as [|c s IH]; intros rest H; simpl in H.
  - contradiction.
  - destruct (p c) eqn:Hc; [|contradiction].
    apply in_app_or in H. destruct H as [H|[<-|[]]].
    + destruct (IH _ H) as (m & -> & _ & Hm).
      exists (c :: m). simpl. rewrite Hc, Hm. repeat split. discriminate.
    + exists [c]. simpl. rewrite Hc. repeat split. discriminate.
Qed.

Lemma starL_inv (s rest : jsstring) :
  In rest (starL p s) ->
  exists m, s = m ++ rest /\ forallb p m = true.
Proof.
  revert rest. induction s as [|c s IH]; intros rest H; simpl in H.
  - destruct H as [<-|[]]. exists []. split; reflexivity.
  - destruct H as [<-|H].
    + exists []. split; reflexivity.
    + destruct (p c) eqn:Hc; [|contradiction].
      destruct (IH _ H) as (m & -> & Hm).
      exists (c :: m). simpl. rewrite Hc, Hm. split; reflexivity.
Qed.

Lemma plusG_stops (r : jsstring) :
  stops p r -> plusG p r = [].
Proof.
  destruct r as [|c r]; simpl; intros H; [reflexivity | now rewrite H].
Qed.

(** A greedy run first tries to stop where the run ends; every other
    stop leaves a character of the class in front. *)
Lemma plusG_run (a r : jsstring) :
  forallb p a = true -> a <> [] -> stops p r ->
  exists others,
    plusG p (a ++ r) = r :: others /\
    forall t, In t others -> exists x t', t = x :: t' /\ p x = true.
Proof.
  induction a as [|x a IH]; intros Ha Hne Hr; [congruence|].
  simpl in Ha. apply andb_prop in Ha. destruct Ha as [Hx Ha].
  simpl. rewrite Hx. destruct a as [|y a].
  - simpl. rewrite (plusG_stops _ Hr). exists []. split; [reflexivity|].
    intros t [].
  - destruct (IH Ha ltac:(discriminate) Hr) as (others & Heq & Hoth).
    rewrite Heq. exists (others ++ [(y :: a) ++ r]). split; [reflexivity|].
    intros t Ht. apply in_app_or in Ht. destruct Ht as [Ht|[<-|[]]].
    + apply Hoth, Ht.
    + simpl in Ha. apply andb_prop in Ha. exists y, (a ++ r). now split.
Qed.

(** If what follows the run refuses every character of the class, only
    the longest run counts. *)
Lemma plusG_first {B : Type} (a r : jsstring) (k : jsstring -> list B) :
  forallb p a = true -> a <> [] -> stops p r ->
  (forall x t, p x = true -> k (x :: t) = []) ->
  flat_map k (plusG p (a ++ r)) = k r.
Proof.
  intros Ha Hne Hr Hk.
  destruct (plusG_run a r Ha Hne Hr) as (others & -> & Hoth).
  simpl. rewrite flat_map_nil; [apply app_nil_r|].
  intros t Ht. destruct (Hoth t Ht) as (x & t' & -> & Hx). now apply Hk.
Qed.

End Runs.

Lemma matches_suffix (r : regex) :
  forall s caps o, In o (matches r s caps) -> exists m, s = m ++ fst o.
Proof.
  induction r as [c|p|p|p|r1 IH1 r2 IH2|r1 IH1]; intros s caps o H; simpl in H.
  - destruct s as [|x s]; [contradiction|].
    destruct (x =? c)%N; [|contradiction].
    destruct H as [<-|[]]. now exists [x].
  - destruct s as [|x s]; [contradiction|].
    destruct (p x); [|contradiction].
    destruct H as [<-|[]]. now exists [x].
  - apply in_map_iff in H. destruct H as (rest & <- & H).
    destruct (plusG_inv _ _ _ H) as (m & -> & _). now exists m.
  - apply in_map_iff in H. destruct H as (rest & <- & H).
    destruct (starL_inv _ _ _ H) as (m & -> & _). now exists m.
  - apply in_flat_map in H. destruct H as (o1 & H1 & H2).
    destruct (IH1 _ _ _ H1) as (m1 & ->).
    destruct (IH2 _ _ _ H2) as (m2 & E). rewrite E.
    exists (m1 ++ m2). now rewrite app_assoc.
  - apply in_map_iff in H. destruct H as (o1 & <- & H).
    destruct (IH1 _ _ _ H) as (m & ->). now exists m.
Qed.

Lemma exec_sound (r : regex) (s m rest : jsstring) (caps : list jsstring) :
  exec r s = Some (m, caps, rest) -> s = m ++ rest.
Proof.
  unfold exec. destruct (matches r s []) as [|o l] eqn:E; [discriminate|].
  intros H. injection H as <- <- <-.
  destruct (matches_suffix r s [] o) as (m & Hm).
  - rewrite E. now left.
  - rewrite Hm. now rewrite consumed_app.
Qed.

(** What [exec] reports is the first way to match. *)
Lemma exec_in (r : regex) (s m rest : jsstring) (caps : list jsstring) :
  exec r s = Some (m, caps, rest) ->
  In (rest, caps) (matches r s []) /\ s = m ++ rest.
Proof.
  intros H. split; [|eapply exec_sound; eauto].
  unfold exec in H. destruct (matches r s []) as [|o l]; [discriminate|].
  injection H as <- <- <-. left. now destruct o.
Qed.

(** The matcher keeps a property of the characters, and adds one capture
    per group. *)
Lemma matches_keep (P : N -> Prop) (r : regex) :
  forall s caps o,
    Forall P s -> Forall (Forall P) caps -> In o (matches r s caps) ->
    Forall P (fst o) /\ Forall (Forall P) (snd o) /\
    length (snd o) = length caps + groups r.
Proof.
  induction r as [c|p|p|p|r1 IH1 r2 IH2|r1 IH1];
    intros s caps o Hs Hc H; simpl in H.
  - destruct s as [|x s]; [contradiction|].
    destruct (x =? c)%N; [|contradiction].
    destruct H as [<-|[]]. simpl. inversion Hs. repeat split; auto.
  - destruct s as [|x s]; [contradiction|].
    destruct (p x); [|contradiction].
    destruct H as [<-|[]]. simpl. inversion Hs. repeat split; auto.
  - apply in_map_iff in H. destruct H as (rest & <- & H).
    destruct (plusG_inv _ _ _ H) as (m & -> & _).
    apply Forall_app in Hs. simpl. repeat split; tauto || auto.
  - apply in_map_iff in H. destruct H as (rest & <- & H).
    destruct (starL_inv _ _ _ H) as (m & -> & _).
    apply Forall_app in Hs. simpl. repeat split; tauto || auto.
  - apply in_flat_map in H. destruct H as (o1 & H1 & H2).
    destruct (IH1 _ _ _ Hs Hc H1) as (A1 & B1 & C1).
    destruct (IH2 _ _ _ A1 B1 H2) as (A2 & B2 & C2).
    split; [exact A2|]. split; [exact B2|]. cbn [groups]. lia.
  - apply in_map_iff in H. destruct H as (o1 & <- & H).
    destruct (IH1 _ _ _ Hs Hc H) as (A1 & B1 & C1). cbn [fst snd groups].
    split; [exact A1|]. split.
    + apply Forall_app. split; [exact B1|]. constructor; [|constructor].
      destruct (matches_suffix _ _ _ _ H) as (m & E).
      rewrite E at 1. rewrite consumed_app.
      rewrite E in Hs. apply Forall_app in Hs. tauto.
    + rewrite length_app. simpl. lia.
Qed.

Lemma exec_keep (P : N -> Prop) (r : regex) (s m rest : jsstring)
    (caps : list jsstring) :
  Forall P s -> exec r s = Some (m, caps, rest) ->
  Forall P m /\ Forall P rest /\ Forall (Forall P) caps /\
  length caps = groups r.
Proof.
  intros Hs H. destruct (exec_in _ _ _ _ _ H) as [Hin E].
  destruct (matches_keep P r s [] (rest, caps) Hs (Forall_nil _) Hin)
    as (A & B & C).
  rewrite E in Hs. apply Forall_app in Hs. simpl in *. tauto.
Qed.

(** ** The scan *)

Lemma scan_from_skip (r : regex) (m rest : jsstring) :
  scan_from r (m ++ rest) (length m) = scan_from r rest 0.
Proof.
  induction m as [|c m IH]; simpl; [|exact IH].
  destruct rest; reflexivity.
Qed.

Lemma scan_hit (r : regex) (s m rest : jsstring) (caps : list jsstring) :
  exec r s = Some (m, caps, rest) -> m <> [] ->
  scan r s = Hit m caps :: scan r rest.
Proof.
  intros H Hne. pose proof (exec_sound _ _ _ _ _ H) as E. subst s.
  destruct m as [|c m]; [congruence|].
  unfold scan. simpl app. cbn [scan_from]. simpl app in H. rewrite H.
  cbn [length]. now rewrite scan_from_skip.
Qed.

Lemma scan_miss (r : regex) (c : N) (s : jsstring) :
  exec r (c :: s) = None -> scan r (c :: s) = Gap c :: scan r s.
Proof.
  intros H. unfold scan. cbn [scan_from]. now rewrite H.
Qed.

Lemma scan_nil (r : regex) : exec r [] = None -> scan r [] = [].
Proof.
  intros H. unfold scan. cbn [scan_from]. now rewrite H.
Qed.

(** The pieces of a scan, put back together, are what was scanned. *)
Lemma scan_from_text (r : regex) (s : jsstring) :
  forall k, flat_map pieceText (scan_from r s k) = skipn k s.
Proof.
  induction s as [|c s IH]; intros k.
  - destruct k; simpl; [|reflexivity].
    destruct (exec r []) as [[[m caps] rest]|]; reflexivity.
  - destruct k as [|k]; cbn [scan_from]; [|apply IH].
    destruct (exec r (c :: s)) as [[[m caps] rest]|] eqn:E.
    + pose proof (exec_sound _ _ _ _ _ E) as Es.
      destruct m as [|x m]; cbn [length].
      * simpl. now rewrite IH.
      * simpl in Es. injection Es as <- ->.
        cbn [flat_map pieceText]. rewrite IH.
        rewrite skipn_app, skipn_all, Nat.sub_diag. reflexivity.
    + simpl. now rewrite IH.
Qed.

Lemma scan_text (r : regex) (s : jsstring) :
  flat_map pieceText (scan r s) = s.
Proof. apply scan_from_text. Qed.

(** What holds of every result of [exec] holds of every match of a scan. *)
Lemma scan_from_hits (P : jsstring -> list jsstring -> Prop) (r : regex) :
  (forall s m caps rest, exec r s = Some (m, caps, rest) -> P m caps) ->
  forall s k, hitsSatisfy P (scan_from r s k).
Proof.
  intros HP s. induction s as [|c s IH]; intros k.
  - destruct k; simpl; [|constructor].
    destruct (exec r []) as [[[m caps] rest]|] eqn:E; [|constructor].
    constructor; [|constructor].
    pose proof (exec_sound _ _ _ _ _ E) as Es.
    destruct m; [|discriminate]. eapply HP, E.
  - destruct k as [|k]; cbn [scan_from]; [|apply IH].
    destruct (exec r (c :: s)) as [[[m caps] rest]|] eqn:E.
    + destruct m as [|x m]; cbn [length].
      * constructor; [eapply HP, E|]. constructor; [exact I|apply IH].
      * constructor; [eapply HP, E|apply IH].
    + constructor; [exact I|apply IH].
Qed.

Lemma scan_hits (P : jsstring -> list jsstring -> Prop) (r : regex) :
  (forall s m caps rest, exec r s = Some (m, caps, rest) -> P m caps) ->
  forall s, hitsSatisfy P (scan r s).
Proof. intros H s. now apply scan_from_hits. Qed.

(** ** Replacement *)

Lemma replaceAll_hit (r : regex) f (s m rest : jsstring) caps :
  exec r s = Some (m, caps, rest) -> m <> [] ->
  replaceAll r f s = f m caps ++ replaceAll r f rest.
Proof.
  intros H Hne. unfold replaceAll. now rewrite (scan_hit _ _ _ _ _ H Hne).
Qed.

Lemma replaceAll_miss (r : regex) f (c : N) (s : jsstring) :
  exec r (c :: s) = None ->
  replaceAll r f (c :: s) = c :: replaceAll r f s.
Proof.
  intros H. unfold replaceAll. now rewrite (scan_miss _ _ _ H).
Qed.

Lemma replaceAll_nil (r : regex) f :
  exec r [] = None -> replaceAll r f [] = [].
Proof.
  intros H. unfold replaceAll. now rewrite (scan_nil _ H).
Qed.

(** Two replacers that agree on the matches give the same result. *)
Lemma replaceAll_ext (r : regex) f g (s : jsstring) :
  (forall s m caps rest, exec r s = Some (m, caps, rest) ->
                         f m caps = g m caps) ->
  replaceAll r f s = replaceAll r g s.
Proof.
  intros H. unfold replaceAll.
  pose proof (scan_hits (fun m caps => f m caps = g m caps) r H s) as Hs.
  induction Hs as [|p ps Hp _ IH]; simpl; [reflexivity|].
  rewrite IH. destruct p; [reflexivity | now rewrite Hp].
Qed.

(** A replacer that gives back the match changes nothing. *)
Lemma replaceAll_id (r : regex) f (s : jsstring) :
  (forall s m caps rest, exec r s = Some (m, caps, rest) -> f m caps = m) ->
  replaceAll r f s = s.
Proof.
  intros H. rewrite (replaceAll_ext r f (fun m _ => m) s H).
  apply scan_text.
Qed.

Lemma exec_Cls (p : N -> bool) (s : jsstring) :
  exec (Cls p) s = match s with
                   | c :: s' => if p c then Some ([c], [], s') else None
                   | [] => None
                   end.
Proof.
  destruct s as [|c s]; [reflexivity|]. unfold exec. cbn [matches].
  destruct (p c); [|reflexivity]. cbn [fst snd].
  change (c :: s) with ([c] ++ s) at 1. now rewrite consumed_app.
Qed.

Lemma test_Cls (p : N -> bool) (s : jsstring) :
  test (Cls p) s = existsb p s.
Proof.
  induction s as [|c s IH]; [reflexivity|].
  cbn [test existsb]. rewrite exec_Cls. destruct (p c); [reflexivity|].
  exact IH.
Qed.

(** ** How the shapes of the patterns match *)

(** *** Reading a match backwards *)

Lemma in_chr (c : N) s caps (o : outcome) :
  In o (matches (Chr c) s caps) -> s = c :: fst o /\ snd o = caps.
Proof.
  cbn [matches]. destruct s as [|x s]; [contradiction|].
  destruct (N.eqb_spec x c) as [->|]; [|contradiction].
  intros [<-|[]]. split; reflexivity.
Qed.

Lemma in_cat (r1 r2 : regex) s caps (o : outcome) :
  In o (matches (r1 @@ r2) s caps) ->
  exists o1, In o1 (matches r1 s caps) /\ In o (matches r2 (fst o1) (snd o1)).
Proof. cbn [matches]. intros H. now apply in_flat_map in H. Qed.

Lemma in_chr_cat (c : N) (r : regex) s caps (o : outcome) :
  In o (matches (Chr c @@ r) s caps) ->
  exists s1, s = c :: s1 /\ In o (matches r s1 caps).
Proof.
  intros H. apply in_cat in H. destruct H as (o1 & H1 & H2).
  apply in_chr in H1. destruct H1 as [-> E]. rewrite E in H2.
  now exists (fst o1).
Qed.

Lemma in_plusG (p : N -> bool) s caps (o : outcome) :
  In o (matches (PlusG p) s caps) ->
  exists m, s = m ++ fst o /\ m <> [] /\ forallb p m = true /\ snd o = caps.
Proof.
  cbn [matches]. intros H. apply in_map_iff in H.
  destruct H as (rest & <- & H).
  destruct (plusG_inv _ _ _ H) as (m & -> & Hne & Hm). now exists m.
Qed.

Lemma in_starL (p : N -> bool) s caps (o : outcome) :
  In o (matches (StarL p) s caps) ->
  exists m, s = m ++ fst o /\ forallb p m = true /\ snd o = caps.
Proof.
  cbn [matches]. intros H. apply in_map_iff in H.
  destruct H as (rest & <- & H).
  destruct (starL_inv _ _ _ H) as (m & -> & Hm). now exists m.
Qed.

Lemma in_grp (r : regex) s caps (o : outcome) :
  In o (matches (Grp r) s caps) ->
  exists m caps1,
    s = m ++ fst o /\ In (fst o, caps1) (matches r s caps) /\
    snd o = caps1 ++ [m].
Proof.
  cbn [matches]. intros H. apply in_map_iff in H.
  destruct H as (o1 & <- & H).
  destruct (matches_suffix _ _ _ _ H) as (m & E).
  exists m, (snd o1). cbn [fst snd]. split; [exact E|]. split.
  - now destruct o1.
  - rewrite E at 1. now rewrite consumed_app.
Qed.

Lemma in_grp_plusG (p : N -> bool) s caps (o : outcome) :
  In o (matches (Grp (PlusG p)) s caps) ->
  exists m, s = m ++ fst o /\ m <> [] /\ forallb p m = true /\
            snd o = caps ++ [m].
Proof.
  intros H. apply in_grp in H. destruct H as (m & caps1 & E & H & Ec).
  apply in_plusG in H. cbn [fst snd] in H.
  destruct H as (m' & E' & Hne & Hm & ->).
  rewrite E in E'. apply app_inv_tail in E'. subst m'. now exists m.
Qed.

Lemma in_grp_starL (p : N -> bool) s caps (o : outcome) :
  In o (matches (Grp (StarL p)) s caps) ->
  exists m, s = m ++ fst o /\ forallb p m = true /\ snd o = caps ++ [m].
Proof.
  intros H. apply in_grp in H. destruct H as (m & caps1 & E & H & Ec).
  apply in_starL in H. cbn [fst snd] in H.
  destruct H as (m' & E' & Hm & ->).
  rewrite E in E'. apply app_inv_tail in E'. subst m'. now exists m.
Qed.

(** *** Computing a match forwards *)

Lemma matches_chr_reject (c x : N) (r : regex) t caps :
  x <> c -> matches (Chr c @@ r) (x :: t) caps = [].
Proof.
  intros H. cbn [matches]. destruct (N.eqb_spec x c); [contradiction|].
  reflexivity.
Qed.

Lemma matches_chr_accept (c : N) (r : regex) t caps :
  matches (Chr c @@ r) (c :: t) caps = matches r t caps.
Proof.
  cbn [matches]. rewrite N.eqb_refl. cbn [flat_map fst snd].
  apply app_nil_r.
Qed.

Lemma matches_chr_nil (c : N) (r : regex) caps :
  matches (Chr c @@ r) [] caps = [].
Proof. reflexivity. Qed.

(** A group over a greedy run, followed by something that refuses the
    characters of the run: the group takes the whole run. *)
Lemma matches_grp_run (p : N -> bool) (r2 : regex) (a r : jsstring) caps :
  forallb p a = true -> a <> [] -> stops p r ->
  (forall x t caps', p x = true -> matches r2 (x :: t) caps' = []) ->
  matches (Grp (PlusG p) @@ r2) (a ++ r) caps = matches r2 r (caps ++ [a]).
Proof.
  intros Ha Hne Hr Hk.
  transitivity (flat_map
                  (fun t => matches r2 t (caps ++ [consumed (a ++ r) t]))
                  (plusG p (a ++ r))).
  - cbn [matches]. now rewrite !flat_map_map.
  - rewrite plusG_first; auto. now rewrite consumed_app.
Qed.

Lemma matches_run (p : N -> bool) (r2 : regex) (a r : jsstring) caps :
  forallb p a = true -> a <> [] -> stops p r ->
  (forall x t caps', p x = true -> matches r2 (x :: t) caps' = []) ->
  matches (PlusG p @@ r2) (a ++ r) caps = matches r2 r caps.
Proof.
  intros Ha Hne Hr Hk.
  transitivity (flat_map (fun t => matches r2 t caps) (plusG p (a ++ r))).
  - cbn [matches]. now rewrite !flat_map_map.
  - rewrite plusG_first; auto.
Qed.

Lemma matches_grp_norun (p : N -> bool) (r2 : regex) (s : jsstring) caps :
  stops p s -> matches (Grp (PlusG p) @@ r2) s caps = [].
Proof. intros H. cbn [matches]. now rewrite (plusG_stops _ _ H). Qed.

Lemma matches_norun (p : N -> bool) (r2 : regex) (s : jsstring) caps :
  stops p s -> matches (PlusG p @@ r2) s caps = [].
Proof. intros H. cbn [matches]. now rewrite (plusG_stops _ _ H). Qed.

Lemma matches_grp_run_last (p : N -> bool) (a r : jsstring) caps :
  forallb p a = true -> a <> [] -> stops p r ->
  exists others,
    matches (Grp (PlusG p)) (a ++ r) caps = (r, caps ++ [a]) :: others.
Proof.
  intros Ha Hne Hr. cbn [matches].
  destruct (plusG_run p a r Ha Hne Hr) as (others & -> & _).
  cbn [map fst snd]. rewrite consumed_app. eauto.
Qed.

Lemma matches_run_last (p : N -> bool) (a r : jsstring) caps :
  forallb p a = true -> a <> [] -> stops p r ->
  exists others, matches (PlusG p) (a ++ r) caps = (r, caps) :: others.
Proof.
  intros Ha Hne Hr. cbn [matches].
  destruct (plusG_run p a r Ha Hne Hr) as (others & -> & _).
  cbn [map]. eauto.
Qed.

Lemma matches_grp_norun_last (p : N -> bool) (s : jsstring) caps :
  stops p s -> matches (Grp (PlusG p)) s caps = [].
Proof. intros H. cbn [matches]. now rewrite (plusG_stops _ _ H). Qed.

Lemma matches_norun_last (p : N -> bool) (s : jsstring) caps :
  stops p s -> matches (PlusG p) s caps = [].
Proof. intros H. cbn [matches]. now rewrite (plusG_stops _ _ H). Qed.

Lemma matches_grp (r : regex) s caps :
  matches (Grp r) s caps =
  map (fun o : outcome => (fst o, snd o ++ [consumed s (fst o)]))
      (matches r s caps).
Proof. reflexivity. Qed.

Lemma forallb_suffix (p : N -> bool) (a1 a2 : jsstring) :
  forallb p (a1 ++ a2) = true -> forallb p a2 = true.
Proof. rewrite forallb_app. intros H. now apply andb_prop in H. Qed.

(** Characters at which no match starts are stepped over. *)
Lemma replaceAll_skip (r : regex) f (a rest : jsstring) :
  (forall a1 a2, a = a1 ++ a2 -> a2 <> [] -> exec r (a2 ++ rest) = None) ->
  replaceAll r f (a ++ rest) = a ++ replaceAll r f rest.
Proof.
  induction a as [|x a IH]; intros H; [reflexivity|].
  simpl. rewrite replaceAll_miss.
  - f_equal. apply IH. intros a1 a2 -> Hne.
    apply (H (x :: a1) a2); [reflexivity | exact Hne].
  - apply (H [] (x :: a)); [reflexivity | discriminate].
Qed.

(** ** The equation pattern *)

Lemma isEquationChar_not_eq (x : N) : isEquationChar x = true -> x <> c_eq.
Proof. intros H ->. vm_compute in H. discriminate. Qed.

Lemma isEquationChar_not_dollar (x : N) :
  isEquationChar x = true -> x <> c_dollar.
Proof. intros H ->. vm_compute in H. discriminate. Qed.

Lemma equation_tail_rejects (x : N) t caps :
  isEquationChar x = true ->
  matches (Chr c_eq @@ PlusG isEquationChar) (x :: t) caps = [].
Proof. intros H. apply matches_chr_reject. now apply isEquationChar_not_eq. Qed.

(** A match of the pattern is a run, one [=] and a run. *)
Lemma exec_equation_shape (s m rest : jsstring) caps :
  exec equationPattern s = Some (m, caps, rest) ->
  exists a b,
    m = a ++ c_eq :: b /\ a <> [] /\ b <> [] /\
    forallb isEquationChar a = true /\ forallb isEquationChar b = true /\
    caps = [m].
Proof.
  intros H. destruct (exec_in _ _ _ _ _ H) as [Hin E].
  unfold equationPattern in Hin. apply in_grp in Hin.
  destruct Hin as (m' & caps1 & E' & Hin & Ec). cbn [fst snd] in *.
  rewrite E in E'. apply app_inv_tail in E'. subst m'.
  apply in_cat in Hin. destruct Hin as (o1 & H1 & H2).
  apply in_plusG in H1. destruct H1 as (a & Ea & Hane & Ha & Eo1).
  apply in_chr_cat in H2. destruct H2 as (s1 & Es1 & H2).
  apply in_plusG in H2. cbn [fst snd] in H2.
  destruct H2 as (b & Eb & Hbne & Hb & Ec1).
  exists a, b. rewrite Ea, Es1, Eb in E.
  change (a ++ c_eq :: b ++ rest) with (a ++ (c_eq :: b) ++ rest) in E.
  rewrite app_assoc in E. apply app_inv_tail in E.
  rewrite Ec, Ec1, Eo1. repeat split; auto.
Qed.

Lemma exec_equation_hit (a b r : jsstring) :
  forallb isEquationChar a = true -> a <> [] ->
  forallb isEquationChar b = true -> b <> [] ->
  stops isEquationChar r ->
  exec equationPattern (a ++ c_eq :: b ++ r)
  = Some (a ++ c_eq :: b, [a ++ c_eq :: b], r).
Proof.
  intros Ha Hane Hb Hbne Hr. unfold exec, equationPattern.
  rewrite matches_grp, matches_run; auto.
  - rewrite matches_chr_accept.
    destruct (matches_run_last isEquationChar b r [] Hb Hbne Hr)
      as (others & ->).
    cbn [map fst snd app].
    change (a ++ c_eq :: b ++ r) with (a ++ (c_eq :: b) ++ r).
    rewrite app_assoc, consumed_app. reflexivity.
  - cbn [stops]. reflexivity.
  - intros x t caps' Hx. now apply equation_tail_rejects.
Qed.

Lemma exec_equation_norun (s : jsstring) :
  stops isEquationChar s -> exec equationPattern s = None.
Proof.
  intros H. unfold exec, equationPattern.
  now rewrite matches_grp, matches_norun.
Qed.

Lemma exec_equation_miss (a r : jsstring) :
  forallb isEquationChar a = true -> a <> [] ->
  stops isEquationChar r -> cannotFollow c_eq isEquationChar r ->
  exec equationPattern (a ++ r) = None.
Proof.
  intros Ha Hane Hr Hf. unfold exec, equationPattern.
  rewrite matches_grp, matches_run; auto.
  - destruct r as [|x r1]; [reflexivity|].
    destruct (N.eq_dec x c_eq) as [->|Hx].
    + rewrite matches_chr_accept, matches_norun_last; [reflexivity|].
      now apply Hf.
    + now rewrite matches_chr_reject.
  - intros x t caps' Hx. now apply equation_tail_rejects.
Qed.

Lemma no_dollar_in_run (a : jsstring) :
  forallb isEquationChar a = true -> includes c_dollar a = false.
Proof.
  unfold includes. induction a as [|x a IH]; [reflexivity|].
  cbn [existsb forallb].
  intros H. apply andb_prop in H. destruct H as [Hx Ha].
  rewrite (IH Ha), orb_false_r. apply N.eqb_neq.
  intros E. now apply (isEquationChar_not_dollar x).
Qed.

Lemma no_dollar_in_equation (a b : jsstring) :
  forallb isEquationChar a = true -> forallb isEquationChar b = true ->
  includes c_dollar (a ++ c_eq :: b) = false.
Proof.
  intros Ha Hb. unfold includes. rewrite existsb_app. cbn [existsb].
  fold (includes c_dollar a). fold (includes c_dollar b).
  now rewrite (no_dollar_in_run a Ha), (no_dollar_in_run b Hb).
Qed.

Lemma operator_in_equation (a b : jsstring) :
  test (Cls isOperatorChar) (a ++ c_eq :: b) = true.
Proof.
  rewrite test_Cls, existsb_app. cbn [existsb].
  replace (isOperatorChar c_eq) with true by reflexivity.
  now rewrite orb_true_r.
Qed.

(** On a match, the replacer only asks for a digit. *)
Lemma equationReplacer_on_match (a b : jsstring) caps :
  forallb isEquationChar a = true -> forallb isEquationChar b = true ->
  equationReplacer (a ++ c_eq :: b) caps = wrapIfDigit (a ++ c_eq :: b).
Proof.
  intros Ha Hb. unfold equationReplacer, wrapIfDigit.
  now rewrite no_dollar_in_equation, operator_in_equation, test_Cls.
Qed.

Lemma equationRule_nil : equationRule [] = [].
Proof. reflexivity. Qed.

Lemma equationRule_sep (c : N) (s : jsstring) :
  isEquationChar c = false ->
  equationRule (c :: s) = c :: equationRule s.
Proof.
  intros H. apply replaceAll_miss. now apply exec_equation_norun.
Qed.

Lemma equationRule_run (a r : jsstring) :
  forallb isEquationChar a = true ->
  stops isEquationChar r -> cannotFollow c_eq isEquationChar r ->
  equationRule (a ++ r) = a ++ equationRule r.
Proof.
  intros Ha Hr Hf. apply replaceAll_skip. intros a1 a2 -> Hne.
  apply exec_equation_miss; auto. now apply forallb_suffix in Ha.
Qed.

Lemma equationRule_hit (a b r : jsstring) :
  forallb isEquationChar a = true -> a <> [] ->
  forallb isEquationChar b = true -> b <> [] ->
  stops isEquationChar r ->
  equationRule (a ++ c_eq :: b ++ r)
  = wrapIfDigit (a ++ c_eq :: b) ++ equationRule r.
Proof.
  intros Ha Hane Hb Hbne Hr. unfold equationRule.
  rewrite (replaceAll_hit _ _ _ _ _ _ (exec_equation_hit a b r Ha Hane Hb Hbne Hr)).
  - now rewrite equationReplacer_on_match.
  - destruct a; [congruence | discriminate].
Qed.

(** ** Runs and tokens *)

Lemma tokens_sep (p : N -> bool) (c : N) (s : jsstring) :
  p c = false -> tokens p (c :: s) = Sep c :: tokens p s.
Proof. intros H. cbn [tokens]. now rewrite H. Qed.

Lemma tokens_stops (p : N -> bool) (r : jsstring) :
  stops p r -> forall a ts, tokens p r <> Run a :: ts.
Proof.
  destruct r as [|c r]; cbn [stops tokens]; intros H a ts.
  - discriminate.
  - rewrite H. discriminate.
Qed.

Lemma tokens_run (p : N -> bool) (a r : jsstring) :
  forallb p a = true -> a <> [] -> stops p r ->
  tokens p (a ++ r) = Run a :: tokens p r.
Proof.
  induction a as [|x a IH]; intros Ha Hne Hr; [congruence|].
  cbn [forallb] in Ha. apply andb_prop in Ha. destruct Ha as [Hx Ha].
  cbn [app tokens]. rewrite Hx. destruct a as [|y a].
  - cbn [app]. pose proof (tokens_stops p r Hr) as Hno.
    destruct (tokens p r) as [|[b|c] ts]; try reflexivity.
    now destruct (Hno b ts).
  - now rewrite IH.
Qed.

Lemma wrapTokens_run_other (a : jsstring) (c : N) (ts : list token) :
  c <> c_eq ->
  wrapTokens (Run a :: Sep c :: ts) = a ++ c :: wrapTokens ts.
Proof.
  intros H. apply N.eqb_neq in H.
  destruct ts as [|[b|d] ts]; cbn [wrapTokens]; now rewrite ?H.
Qed.

Lemma wrapTokens_run_eq_norun (a : jsstring) (ts : list token) :
  (forall b ts', ts <> Run b :: ts') ->
  wrapTokens (Run a :: Sep c_eq :: ts) = a ++ c_eq :: wrapTokens ts.
Proof.
  intros H. destruct ts as [|[b|d] ts]; cbn [wrapTokens]; try reflexivity.
  now destruct (H b ts).
Qed.

Lemma wrapTokens_run_eq_run (a b : jsstring) (ts : list token) :
  wrapTokens (Run a :: Sep c_eq :: Run b :: ts)
  = wrapIfDigit (a ++ c_eq :: b) ++ wrapTokens ts.
Proof. cbn [wrapTokens]. now rewrite N.eqb_refl. Qed.

Lemma equationRule_tokens_upto (n : nat) :
  forall s, length s <= n ->
            equationRule s = wrapTokens (tokens isEquationChar s).
Proof.
  induction n as [|n IH]; intros s Hn.
  - destruct s; [reflexivity | simpl in Hn; lia].
  - destruct (run_split isEquationChar s) as (a & r & -> & Ha & Hr).
    rewrite length_app in Hn.
    destruct a as [|x a].
    + cbn [app] in *. destruct r as [|c r]; [reflexivity|].
      cbn [stops] in Hr. rewrite equationRule_sep, tokens_sep by exact Hr.
      cbn [wrapTokens]. f_equal. apply IH. simpl in Hn. lia.
    + assert (Hne : x :: a <> []) by discriminate.
      remember (x :: a) as A eqn:EA.
      assert (HA : 1 <= length A) by (subst A; simpl; lia).
      rewrite tokens_run by assumption.
      destruct r as [|c r1].
      * rewrite equationRule_run by (assumption || exact I).
        reflexivity.
      * cbn [stops] in Hr. rewrite (tokens_sep _ _ _ Hr).
        cbn [length] in Hn.
        destruct (N.eq_dec c c_eq) as [->|Hc].
        -- destruct (run_split isEquationChar r1) as (b & r2 & -> & Hb & Hr2).
           rewrite length_app in Hn.
           destruct b as [|y b].
           ++ cbn [app] in *.
              rewrite equationRule_run, equationRule_sep; auto.
              ** rewrite wrapTokens_run_eq_norun
                   by (apply tokens_stops; exact Hr2).
                 do 2 f_equal. apply IH. lia.
              ** cbn [cannotFollow]. intros _. exact Hr2.
           ++ assert (Hbne : y :: b <> []) by discriminate.
              remember (y :: b) as B eqn:EB.
              rewrite equationRule_hit by assumption.
              rewrite tokens_run by assumption.
              rewrite wrapTokens_run_eq_run. f_equal. apply IH. lia.
        -- rewrite equationRule_run, equationRule_sep; auto.
           ++ rewrite wrapTokens_run_other by exact Hc.
              do 2 f_equal. apply IH. lia.
           ++ cbn [cannotFollow]. intros E. contradiction.
Qed.

(** ** The claims about the equation rule *)

(** C2, as stated, fails: on [x=1 and y=2] the rule wraps [x=1 and y] and
    leaves [=2] outside, where the specification's wording (maximal runs
    over the class with [=]) would make one block of the whole line. *)
Lemma C2_two_equal_signs_not_one_block :
  equationRule (str "x=1 and y=2") = str "$$x=1 and y$$=2" /\
  equationRuleAsSpecified (str "x=1 and y=2") = str "$$x=1 and y=2$$" /\
  equationRule (str "x=1 and y=2")
  <> equationRuleAsSpecified (str "x=1 and y=2").
Proof.
  split; [vm_compute; reflexivity|]. split; [vm_compute; reflexivity|].
  vm_compute. discriminate.
Qed.

(** C2, amended: the equation rule works on the maximal runs of the class
    of the pattern, which has no [=].  A run, one [=] and the next run make
    a match, found leftmost first with the scan resuming behind it; the
    match is replaced by its trimmed text in [$$...$$] exactly when it has
    a digit, and everything else stays.  A block so has one [=]:
    [x=1 and y=2] becomes [$$x=1 and y$$=2]. *)
Theorem C2_equation_rule_by_runs :
  (forall s, equationRule s = wrapTokens (tokens isEquationChar s)) /\
  wrapTokens (tokens isEquationChar (str "x=1 and y=2"))
  = str "$$x=1 and y$$=2".
Proof.
  split.
  - intros s. now apply (equationRule_tokens_upto (length s)).
  - vm_compute. reflexivity.
Qed.

(** C10: a match of the equation pattern has no dollar in it, so the test
    [match.includes('$')] never holds: on every match the replacer decides
    by the operator test and the digit test alone, and the rule is the
    rule without the guard. *)
Theorem C10_dollar_guard_unreachable (s : jsstring) :
  hitsSatisfy
    (fun m caps =>
       includes c_dollar m = false /\
       equationReplacer m caps
       = if test (Cls isOperatorChar) m && test (Cls isDigit) m
         then wrapBlock m else m)
    (scan equationPattern s) /\
  equationRule s = replaceAll equationPattern equationReplacerUnguarded s.
Proof.
  assert (H : forall s m caps rest,
             exec equationPattern s = Some (m, caps, rest) ->
             includes c_dollar m = false /\
             equationReplacer m caps = equationReplacerUnguarded m caps).
  { intros s0 m caps rest E.
    destruct (exec_equation_shape _ _ _ _ E) as (a & b & -> & _ & _ & Ha & Hb & _).
    pose proof (no_dollar_in_equation a b Ha Hb) as Hd.
    split; [exact Hd|]. unfold equationReplacer. now rewrite Hd. }
  split.
  - apply scan_hits. intros s0 m caps rest E. exact (H _ _ _ _ E).
  - apply replaceAll_ext. intros s0 m caps rest E.
    exact (proj2 (H _ _ _ _ E)).
Qed.

(** ** The example line *)

(** C1, as stated, fails: the annotator does not return the line with a
    block around [E=mc^{2} and ]. *)
Lemma C1_example_not_wrapped :
  detectMathPatterns exampleLine <> str "$$E=mc^{2} and $$$\pi$ is useful".
Proof. vm_compute. discriminate. Qed.

(** C1, amended: on the example line the exponent rule gives
    [E=mc^{2} and (pi) is useful], the Greek rule gives
    [E=mc^{2} and $\pi$ is useful], and the equation pattern, whose class
    has no brace, matches only [E=mc^]; this has no digit, so nothing is
    wrapped and the annotator returns [E=mc^{2} and $\pi$ is useful]. *)
Theorem C1_example_output :
  exponentRule (fractionRule exampleLine)
  = str "E=mc^{2} and " ++ [960%N] ++ str " is useful" /\
  greekRule (rootRule (exponentRule (fractionRule exampleLine)))
  = str "E=mc^{2} and $\pi$ is useful" /\
  scan equationPattern (str "E=mc^{2} and $\pi$ is useful")
  = Hit (str "E=mc^") [str "E=mc^"]
    :: map Gap (str "{2} and $\pi$ is useful") /\
  equationReplacer (str "E=mc^") [str "E=mc^"] = str "E=mc^" /\
  detectMathPatterns exampleLine = str "E=mc^{2} and $\pi$ is useful".
Proof. repeat split; vm_compute; reflexivity. Qed.

(** ** The page stream driver *)

(** C8: without a file the stream holds one event, the error
    [No file provided], and is closed; nothing comes before or after it. *)
Theorem C8_no_file_single_error :
  POST NoFile = mkController [ErrorEvent (str "No file provided")] true.
Proof. reflexivity. Qed.

Lemma after_nil (ctl : controller) : after ctl [] = ctl.
Proof. destruct ctl. unfold after. simpl. now rewrite app_nil_r. Qed.

Lemma after_after (ctl : controller) (e1 e2 : list event) :
  after (after ctl e1) e2 = after ctl (e1 ++ e2).
Proof. unfold after. simpl. now rewrite app_assoc. Qed.

(** The loop runs the pages in order up to the first that fails. *)
Lemma pageLoop_runs (numPages : nat) (getPage : nat -> pageAnswer) :
  forall todo pageNum ctl,
  exists k evs,
    k <= todo /\
    existsb isTerminal evs = false /\
    pageNumbers evs = seq pageNum k /\
    (forall i, i < k -> exists items, getPage (pageNum + i) = PageItems items) /\
    ((k = todo /\
      pageLoop numPages getPage pageNum todo ctl = (inl tt, after ctl evs))
     \/
     (k < todo /\
      exists e, getPage (pageNum + k) = PageFails e /\
                pageLoop numPages getPage pageNum todo ctl
                = (inr e, after ctl evs))).
Proof.
  induction todo as [|todo IH]; intros pageNum ctl.
  - exists 0, []. repeat split; try lia.
    left. split; [reflexivity|]. cbn [pageLoop]. unfold ret.
    now rewrite after_nil.
  - cbn [pageLoop]. unfold bind at 1. unfold processPage.
    unfold bind at 1. cbn [enqueue].
    set (progress := Progress _).
    destruct (getPage pageNum) as [e|items] eqn:Eg.
    + exists 0, [progress]. split; [lia|]. split; [reflexivity|].
      split; [reflexivity|]. split; [lia|].
      right. split; [lia|]. exists e. rewrite Nat.add_0_r.
      split; [exact Eg|]. reflexivity.
    + cbn [enqueue queue closed].
      set (page := PageEvent _ _).
      set (ctl' := mkController _ _).
      destruct (IH (S pageNum) ctl')
        as (k & evs & Hk & Hterm & Hnum & Hok & Hrun).
      exists (S k), (progress :: page :: evs).
      split; [lia|]. split; [exact Hterm|].
      split; [change (pageNumbers (progress :: page :: evs))
                with (pageNum :: pageNumbers evs);
              now rewrite Hnum|].
      split.
      * intros [|i] Hi.
        -- rewrite Nat.add_0_r. now exists items.
        -- destruct (Hok i ltac:(lia)) as (it & Hit). exists it.
           now rewrite <- Nat.add_succ_comm.
      * assert (Ec : after ctl' evs = after ctl (progress :: page :: evs)).
        { unfold after, ctl'. cbn [queue closed].
          now rewrite <- !app_assoc. }
        destruct Hrun as [[-> Hrun]|[Hlt (e & Hf & Hrun)]].
        -- left. split; [reflexivity|]. rewrite <- Ec. exact Hrun.
        -- right. split; [lia|]. exists e.
           rewrite <- Nat.add_succ_comm. split; [exact Hf|].
           rewrite <- Ec. exact Hrun.
Qed.

(** The stream of a decoded document, from the result of the loop. *)
Lemma POST_document (numPages : nat) (getPage : nat -> pageAnswer) :
  POST (File (Document numPages getPage))
  = match pageLoop numPages getPage 1 numPages
            (mkController
               [Progress (str "Loading PDF...");
                Progress (str "Processing " ++ decimal numPages
                          ++ str " pages...")] false) with
    | (inl _, ctl') =>
        mkController (queue ctl' ++ [Complete (str "Processing complete!")])
                     true
    | (inr e, ctl') =>
        mkController (queue ctl' ++ [ErrorEvent (errorMessage e)]) true
    end.
Proof.
  unfold POST, start, tryCatch, startBody, startCatch, bind, enqueue, close.
  cbn [queue closed app].
  destruct (pageLoop numPages getPage 1 numPages _) as [[[]|e] ctl'];
    reflexivity.
Qed.

(** C9, as stated, fails: a document that decodes with one page whose
    extraction fails has no page event, where the claim has pages 1 to N. *)
Lemma C9_failed_page_has_no_event :
  pageNumbers (queue (POST failingDocument)) = [] /\
  pageNumbers (queue (POST failingDocument)) <> seq 1 1.
Proof. split; [reflexivity|]. vm_compute. discriminate. Qed.

(** C9, amended: for every document that decodes with N pages the page
    events are those of pages 1 to k, in this order and one each, where all
    of pages 1 to k were extracted and either k = N, or page k + 1 is the
    first whose extraction fails.  The stream ends with its only terminal
    event, [complete] when k = N and [error] with the failure's message
    otherwise, and is closed. *)
Theorem C9_pages_in_order_one_terminal (numPages : nat)
    (getPage : nat -> pageAnswer) :
  exists k body last,
    k <= numPages /\
    queue (POST (File (Document numPages getPage))) = body ++ [last] /\
    closed (POST (File (Document numPages getPage))) = true /\
    existsb isTerminal body = false /\
    isTerminal last = true /\
    pageNumbers (queue (POST (File (Document numPages getPage))))
    = seq 1 k /\
    (forall i, i < k -> exists items, getPage (1 + i) = PageItems items) /\
    ((k = numPages /\ last = Complete (str "Processing complete!"))
     \/
     (k < numPages /\
      exists e, getPage (1 + k) = PageFails e /\
                last = ErrorEvent (errorMessage e))).
Proof.
  rewrite POST_document.
  set (ctl := mkController _ _).
  destruct (pageLoop_runs numPages getPage numPages 1 ctl)
    as (k & evs & Hk & Hterm & Hnum & Hok & Hrun).
  exists k, (queue ctl ++ evs).
  assert (Hq : forall last,
             pageNumbers ((queue ctl ++ evs) ++ [last]) = seq 1 k
             \/ isTerminal last = false).
  { intros last. destruct last; try (now right); left;
      unfold pageNumbers in *; rewrite !flat_map_app, Hnum;
      cbn [flat_map queue ctl app]; now rewrite app_nil_r. }
  assert (Hb : existsb isTerminal (queue ctl ++ evs) = false).
  { rewrite existsb_app, Hterm. reflexivity. }
  destruct Hrun as [[-> Hrun]|[Hlt (e & Hf & Hrun)]]; rewrite Hrun.
  - exists (Complete (str "Processing complete!")).
    cbn [after queue closed].
    split; [lia|]. split; [reflexivity|]. split; [reflexivity|].
    split; [exact Hb|]. split; [reflexivity|]. split.
    + destruct (Hq (Complete (str "Processing complete!"))) as [H|H];
        [exact H | discriminate].
    + split; [exact Hok|]. left. now split.
  - exists (ErrorEvent (errorMessage e)).
    cbn [after queue closed].
    split; [lia|]. split; [reflexivity|]. split; [reflexivity|].
    split; [exact Hb|]. split; [reflexivity|]. split.
    + destruct (Hq (ErrorEvent (errorMessage e))) as [H|H];
        [exact H | discriminate].
    + split; [exact Hok|]. right. split; [exact Hlt|]. now exists e.
Qed.

(** ** The markup segmenter *)

Lemma exec_display_shape (s m rest : jsstring) caps :
  exec displayMathRegex s = Some (m, caps, rest) ->
  exists tex, caps = [tex] /\ m = delimiter true ++ tex ++ delimiter true.
Proof.
  intros H. destruct (exec_in _ _ _ _ _ H) as [Hin E].
  unfold displayMathRegex in Hin.
  apply in_chr_cat in Hin. destruct Hin as (s1 & E1 & Hin).
  apply in_chr_cat in Hin. destruct Hin as (s2 & E2 & Hin).
  apply in_cat in Hin. destruct Hin as (o1 & H1 & Hin).
  apply in_grp_starL in H1. destruct H1 as (tex & E3 & _ & Ec).
  apply in_chr_cat in Hin. destruct Hin as (s4 & E4 & Hin).
  apply in_chr in Hin. cbn [fst snd] in Hin. destruct Hin as [E5 Ec'].
  exists tex. split; [now rewrite Ec', Ec|].
  rewrite E1, E2, E3, E4, E5 in E.
  replace (c_dollar :: c_dollar :: tex ++ c_dollar :: c_dollar :: rest)
    with ((delimiter true ++ tex ++ delimiter true) ++ rest) in E
    by (now rewrite <- !app_assoc).
  now apply app_inv_tail in E.
Qed.

Lemma exec_inline_shape (s m rest : jsstring) caps :
  exec inlineMathRegex s = Some (m, caps, rest) ->
  exists tex, caps = [tex] /\ m = delimiter false ++ tex ++ delimiter false.
Proof.
  intros H. destruct (exec_in _ _ _ _ _ H) as [Hin E].
  unfold inlineMathRegex in Hin.
  apply in_chr_cat in Hin. destruct Hin as (s1 & E1 & Hin).
  apply in_cat in Hin. destruct Hin as (o1 & H1 & Hin).
  apply in_grp_starL in H1. destruct H1 as (tex & E3 & _ & Ec).
  apply in_chr in Hin. cbn [fst snd] in Hin. destruct Hin as [E5 Ec'].
  exists tex. split; [now rewrite Ec', Ec|].
  rewrite E1, E3, E5 in E.
  replace (c_dollar :: tex ++ c_dollar :: rest)
    with ((delimiter false ++ tex ++ delimiter false) ++ rest) in E
    by (now rewrite <- !app_assoc).
  now apply app_inv_tail in E.
Qed.

Lemma literal_textBefore (t : jsstring) :
  flat_map literal (textBefore t) = t.
Proof. destruct t; [reflexivity|]. cbn. now rewrite app_nil_r. Qed.

Lemma literal_MathSpan (d : bool) (tex : jsstring) :
  literal (MathSpan d tex) = delimiter d ++ tex ++ delimiter d.
Proof. now destruct d. Qed.

(** The spans of a loop and the text left over spell what was scanned. *)
Lemma execLoop_literal (d : bool) (ps : list piece) :
  hitsSatisfy
    (fun m caps => m = delimiter d ++ nth 0 caps [] ++ delimiter d) ps ->
  forall pending,
    flat_map literal (fst (execLoop d ps pending))
    ++ snd (execLoop d ps pending)
    = pending ++ flat_map pieceText ps.
Proof.
  intros H. induction H as [|p ps Hp _ IH]; intros pending.
  - cbn. now rewrite app_nil_r.
  - destruct p as [c|m caps]; cbn [execLoop].
    + rewrite IH. cbn [flat_map pieceText]. now rewrite <- app_assoc.
    + specialize (IH []). destruct (execLoop d ps []) as [spans rest].
      cbn [fst snd] in *. rewrite flat_map_app, literal_textBefore.
      cbn [flat_map pieceText]. rewrite literal_MathSpan, <- Hp.
      rewrite <- !app_assoc. f_equal. f_equal. exact IH.
Qed.

Lemma display_hits (line : jsstring) :
  hitsSatisfy
    (fun m caps => m = delimiter true ++ nth 0 caps [] ++ delimiter true)
    (scan displayMathRegex line).
Proof.
  apply scan_hits. intros s m caps rest E.
  destruct (exec_display_shape _ _ _ _ E) as (tex & -> & ->). reflexivity.
Qed.

Lemma inline_hits (line : jsstring) :
  hitsSatisfy
    (fun m caps => m = delimiter false ++ nth 0 caps [] ++ delimiter false)
    (scan inlineMathRegex line).
Proof.
  apply scan_hits. intros s m caps rest E.
  destruct (exec_inline_shape _ _ _ _ E) as (tex & -> & ->). reflexivity.
Qed.

Lemma segments_cover (line : jsstring) :
  flat_map literal (segments line) = line.
Proof.
  unfold segments.
  destruct (existsb isHit (scan displayMathRegex line)).
  - pose proof (execLoop_literal true _ (display_hits line) []) as H.
    destruct (execLoop true (scan displayMathRegex line) []) as [spans rest].
    cbn [fst snd app] in H.
    now rewrite flat_map_app, literal_textBefore, H, scan_text.
  - pose proof (execLoop_literal false _ (inline_hits line) []) as H.
    destruct (execLoop false (scan inlineMathRegex line) []) as [spans rest].
    cbn [fst snd app] in H.
    now rewrite flat_map_app, literal_textBefore, H, scan_text.
Qed.

(** C6: the spans that the segmenter appends for a line, each in its
    literal form (a math span with its delimiters), spell the line, in
    order, without a gap or an overlap.  The content of the line element is
    these spans; only the empty line, which has none, shows a no-break
    space instead. *)
Theorem C6_segment_coverage (line : jsstring) :
  flat_map literal (segments line) = line /\
  flat_map literal (renderLine line)
  = match line with
    | [] => [c_nbsp]
    | _ :: _ => line
    end.
Proof.
  split; [apply segments_cover|].
  unfold renderLine. pose proof (segments_cover line) as H.
  destruct (segments line) as [|sp sps] eqn:E.
  - cbn in H. subst line. reflexivity.
  - rewrite H. destruct line; [discriminate | reflexivity].
Qed.

(** ** The symbol rules *)

Lemma sameText_eq (a b : jsstring) : sameText a b = true -> a = b.
Proof. unfold sameText. now destruct (list_eq_dec N.eq_dec a b). Qed.

Lemma exec_Chr (k : N) (s : jsstring) :
  exec (Chr k) s = match s with
                   | c :: s' => if (c =? k)%N then Some ([c], [], s') else None
                   | [] => None
                   end.
Proof.
  destruct s as [|c s]; [reflexivity|]. unfold exec. cbn [matches].
  destruct (c =? k)%N; [|reflexivity]. cbn [fst snd].
  change (c :: s) with ([c] ++ s) at 1. now rewrite consumed_app.
Qed.

(** Replacing one character everywhere works character by character. *)
Lemma replaceAll_Chr (k : N) f (s : jsstring) :
  replaceAll (Chr k) f s
  = flat_map (fun c => if (c =? k)%N then f [c] [] else [c]) s.
Proof.
  induction s as [|c s IH]; [reflexivity|]. cbn [flat_map].
  destruct (c =? k)%N eqn:E.
  - rewrite (replaceAll_hit (Chr k) f (c :: s) [c] s []).
    + now rewrite IH.
    + now rewrite exec_Chr, E.
    + discriminate.
  - rewrite replaceAll_miss; [now rewrite IH|]. now rewrite exec_Chr, E.
Qed.

Lemma substSymbol_cons (k : N) (latex : string) table (c : N) :
  substSymbol ((k, latex) :: table) c
  = if (c =? k)%N then symbolTemplate latex else substSymbol table c.
Proof.
  unfold substSymbol. cbn [lookupSymbol]. now destruct (c =? k)%N.
Qed.

Lemma substSymbol_fixes table (t : jsstring) :
  forallb (noSymbol table) t = true -> flat_map (substSymbol table) t = t.
Proof.
  induction t as [|c t IH]; [reflexivity|]. cbn [forallb flat_map].
  intros H. apply andb_prop in H. destruct H as [Hc Ht].
  rewrite (IH Ht). unfold substSymbol, noSymbol in *.
  now destruct (lookupSymbol table c).
Qed.

(** The replacements of a table, run one after the other, substitute
    every character by its entry, all at once. *)
Lemma replaceSymbols_at_once table :
  sequentialOk table = true ->
  forall s, fold_left replaceSymbol table s = flat_map (substSymbol table) s.
Proof.
  induction table as [|[k latex] table IH]; intros Hok s.
  - cbn. induction s as [|c s IHs]; [reflexivity|]. cbn. now rewrite <- IHs.
  - cbn [sequentialOk] in Hok. apply andb_prop in Hok.
    destruct Hok as [Hok Htable]. apply andb_prop in Hok.
    destruct Hok as [Hexp Hfree]. apply sameText_eq in Hexp.
    cbn [fold_left]. rewrite (IH Htable).
    unfold replaceSymbol, replaceWith. cbn [fst snd].
    rewrite replaceAll_Chr, flat_map_flat_map.
    apply flat_map_ext. intros c. rewrite substSymbol_cons.
    destruct (N.eqb_spec c k) as [->|Hne].
    + rewrite Hexp. now apply substSymbol_fixes.
    + cbn. apply app_nil_r.
Qed.

(** A character of the table gets the template of an entry, any other
    character stays. *)
Lemma substSymbol_cases table (c : N) :
  if existsb (N.eqb c) (map fst table)
  then exists latex, In (c, latex) table /\
                     substSymbol table c = symbolTemplate latex
  else substSymbol table c = [c].
Proof.
  induction table as [|[k l] table IH]; [reflexivity|].
  cbn [map fst existsb]. rewrite substSymbol_cons.
  destruct (N.eqb_spec c k) as [->|Hne]; cbn [orb].
  - exists l. split; [now left | reflexivity].
  - destruct (existsb (N.eqb c) (map fst table)); [|exact IH].
    destruct IH as (latex & Hin & E). exists latex. split; [now right | exact E].
Qed.

Lemma greekLetters_ok : sequentialOk greekLetters = true.
Proof. vm_compute. reflexivity. Qed.

Lemma operatorSymbols_ok : sequentialOk operatorSymbols = true.
Proof. vm_compute. reflexivity. Qed.

Lemma greekRule_at_once (s : jsstring) :
  greekRule s = flat_map (substSymbol greekLetters) s.
Proof. apply replaceSymbols_at_once, greekLetters_ok. Qed.

Lemma operatorRule_at_once (s : jsstring) :
  operatorRule s = flat_map (substSymbol operatorSymbols) s.
Proof. apply replaceSymbols_at_once, operatorSymbols_ok. Qed.

(** C4, as stated, fails: no set of 31 letters is the set of the
    characters that the Greek rule replaces, because the 33 keys of the
    table are distinct and each of them is replaced. *)
Lemma C4_not_31_letters :
  ~ exists letters : list N,
      NoDup letters /\ length letters = 31 /\
      forall c, In c letters <-> greekRule [c] <> [c].
Proof.
  intros (letters & Hnd & Hlen & Hin).
  assert (Hk : NoDup (map fst greekLetters)).
  { apply (NoDup_count_occ' N.eq_dec). intros c Hc. cbn in Hc.
    repeat (destruct Hc as [<-|Hc]; [vm_compute; reflexivity|]).
    contradiction. }
  assert (Hincl : incl (map fst greekLetters) letters).
  { intros c Hc. apply Hin. cbn in Hc.
    repeat (destruct Hc as [<-|Hc]; [vm_compute; discriminate|]).
    contradiction. }
  pose proof (NoDup_incl_length Hk Hincl) as Hle.
  rewrite Hlen in Hle. cbn in Hle. lia.
Qed.

(** C4, amended: the Greek rule replaces, in every string, every
    occurrence of each of the 33 letters of its table (23 lower case, 10
    upper case, all distinct) by its LaTeX command between two dollars,
    letter by letter whatever stands around, and leaves every other
    character as it is. *)
Theorem C4_greek_rule_letterwise :
  (forall s, greekRule s = flat_map (substSymbol greekLetters) s) /\
  (forall c,
      if existsb (N.eqb c) (map fst greekLetters)
      then exists latex, In (c, latex) greekLetters /\
                         substSymbol greekLetters c = symbolTemplate latex
      else substSymbol greekLetters c = [c]) /\
  length greekLetters = 33 /\
  NoDup (map fst greekLetters) /\
  substSymbol greekLetters 960 = str "$\pi$".
Proof.
  split; [exact greekRule_at_once|].
  split; [exact (substSymbol_cases greekLetters)|].
  split; [reflexivity|]. split; [|reflexivity].
  apply (NoDup_count_occ' N.eq_dec). intros c Hc. cbn in Hc.
  repeat (destruct Hc as [<-|Hc]; [vm_compute; reflexivity|]).
  contradiction.
Qed.

(** ** The exponent rule *)

Lemma isAlnum_not_caret (x : N) : isAlnum x = true -> x <> cu "^".
Proof. intros H ->. vm_compute in H. discriminate. Qed.

Lemma isDigit_isAlnum (x : N) : isDigit x = true -> isAlnum x = true.
Proof. unfold isAlnum, isDigit. intros ->. now rewrite !orb_true_r. Qed.

Lemma digits_alnum (d : jsstring) :
  forallb isDigit d = true -> forallb isAlnum d = true.
Proof.
  induction d as [|x d IH]; [reflexivity|]. cbn [forallb].
  intros H. apply andb_prop in H. destruct H as [Hx Hd].
  now rewrite (isDigit_isAlnum x Hx), (IH Hd).
Qed.

Lemma exponent_tail_rejects (x : N) t caps :
  isAlnum x = true ->
  matches (Chr (cu "^") @@ Grp (PlusG isDigit)) (x :: t) caps = [].
Proof. intros H. apply matches_chr_reject. now apply isAlnum_not_caret. Qed.

(** Either [c] and a run of [p] follow, or they cannot. *)
Lemma follow_cases (c : N) (p : N -> bool) (r : jsstring) :
  (exists d r3, r = c :: d ++ r3 /\ d <> [] /\ forallb p d = true /\
                stops p r3)
  \/ cannotFollow c p r.
Proof.
  destruct r as [|x r1]; [right; exact I|].
  destruct (N.eq_dec x c) as [->|Hx].
  - destruct (run_split p r1) as (d & r3 & -> & Hd & Hr3).
    destruct d as [|y d].
    + right. intros _. exact Hr3.
    + left. exists (y :: d), r3. repeat split; auto. discriminate.
  - right. intros E. contradiction.
Qed.

Lemma exec_exponent_hit (a d r : jsstring) :
  forallb isAlnum a = true -> a <> [] ->
  forallb isDigit d = true -> d <> [] -> stops isDigit r ->
  exec exponentPattern (a ++ cu "^" :: d ++ r)
  = Some (a ++ cu "^" :: d, [a; d], r).
Proof.
  intros Ha Hane Hd Hdne Hr. unfold exec, exponentPattern.
  rewrite matches_grp_run; auto.
  - rewrite matches_chr_accept.
    destruct (matches_grp_run_last isDigit d r ([] ++ [a]) Hd Hdne Hr)
      as (others & ->).
    cbn [fst snd app].
    change (a ++ cu "^" :: d ++ r) with (a ++ (cu "^" :: d) ++ r).
    rewrite app_assoc, consumed_app. reflexivity.
  - reflexivity.
  - intros x t caps' Hx. now apply exponent_tail_rejects.
Qed.

Lemma exec_exponent_norun (s : jsstring) :
  stops isAlnum s -> exec exponentPattern s = None.
Proof.
  intros H. unfold exec, exponentPattern. now rewrite matches_grp_norun.
Qed.

Lemma exec_exponent_miss (a r : jsstring) :
  forallb isAlnum a = true -> a <> [] ->
  stops isAlnum r -> cannotFollow (cu "^") isDigit r ->
  exec exponentPattern (a ++ r) = None.
Proof.
  intros Ha Hane Hr Hf. unfold exec, exponentPattern.
  rewrite matches_grp_run; auto.
  - destruct r as [|x r1]; [reflexivity|].
    destruct (N.eq_dec x (cu "^")) as [->|Hx].
    + rewrite matches_chr_accept, matches_grp_norun_last; [reflexivity|].
      now apply Hf.
    + now rewrite matches_chr_reject.
  - intros x t caps' Hx. now apply exponent_tail_rejects.
Qed.

Lemma expand_exponent (m a d : jsstring) :
  expand (str "$1^{$2}") m [a; d] = a ++ str "^{" ++ d ++ str "}".
Proof. reflexivity. Qed.

Lemma exponentRule1_nil : exponentRule1 [] = [].
Proof. reflexivity. Qed.

Lemma exponentRule1_sep (c : N) (s : jsstring) :
  isAlnum c = false -> exponentRule1 (c :: s) = c :: exponentRule1 s.
Proof. intros H. apply replaceAll_miss. now apply exec_exponent_norun. Qed.

Lemma exponentRule1_run (a r : jsstring) :
  forallb isAlnum a = true ->
  stops isAlnum r -> cannotFollow (cu "^") isDigit r ->
  exponentRule1 (a ++ r) = a ++ exponentRule1 r.
Proof.
  intros Ha Hr Hf. apply replaceAll_skip. intros a1 a2 -> Hne.
  apply exec_exponent_miss; auto. now apply forallb_suffix in Ha.
Qed.

Lemma exponentRule1_hit (a d r : jsstring) :
  forallb isAlnum a = true -> a <> [] ->
  forallb isDigit d = true -> d <> [] -> stops isDigit r ->
  exponentRule1 (a ++ cu "^" :: d ++ r)
  = a ++ str "^{" ++ d ++ str "}" ++ exponentRule1 r.
Proof.
  intros Ha Hane Hd Hdne Hr. unfold exponentRule1, replaceWith.
  rewrite (replaceAll_hit _ _ _ _ _ _ (exec_exponent_hit a d r Ha Hane Hd Hdne Hr)).
  - rewrite expand_exponent. now rewrite <- !app_assoc.
  - destruct a; [congruence | discriminate].
Qed.

(** The rule keeps the first character. *)
Lemma exponentRule1_head (s : jsstring) :
  hd_error (exponentRule1 s) = hd_error s.
Proof.
  destruct (run_split isAlnum s) as (a & r & -> & Ha & Hr).
  destruct a as [|x a].
  - destruct r as [|c r]; [reflexivity|]. cbn [app stops] in *.
    now rewrite exponentRule1_sep.
  - destruct (follow_cases (cu "^") isDigit r)
      as [(d & r3 & -> & Hdne & Hd & Hr3)|Hf].
    + rewrite exponentRule1_hit; auto. discriminate.
    + now rewrite exponentRule1_run.
Qed.

Lemma stops_head (p : N -> bool) (u v : jsstring) :
  hd_error u = hd_error v -> stops p v -> stops p u.
Proof.
  destruct u, v; cbn; intros E H; try discriminate; auto.
  now injection E as ->.
Qed.

Lemma exponentRule1_idempotent_upto (n : nat) :
  forall s, length s <= n ->
            exponentRule1 (exponentRule1 s) = exponentRule1 s.
Proof.
  induction n as [|n IH]; intros s Hn.
  - destruct s; [reflexivity | simpl in Hn; lia].
  - destruct (run_split isAlnum s) as (a & r & -> & Ha & Hr).
    rewrite length_app in Hn. destruct a as [|x a].
    + cbn [app] in *. destruct r as [|c r]; [reflexivity|].
      cbn [stops] in Hr. rewrite !exponentRule1_sep by exact Hr.
      f_equal. apply IH. simpl in Hn. lia.
    + assert (Hne : x :: a <> []) by discriminate.
      remember (x :: a) as A eqn:EA.
      assert (HA : 1 <= length A) by (subst A; simpl; lia).
      destruct (follow_cases (cu "^") isDigit r)
        as [(d & r3 & -> & Hdne & Hd & Hr3)|Hf].
      * rewrite exponentRule1_hit by assumption.
        cbn [length] in Hn. rewrite length_app in Hn.
        change (str "^{" ++ d ++ str "}" ++ exponentRule1 r3)
          with (cu "^" :: cu "{" :: d ++ cu "}" :: exponentRule1 r3).
        rewrite exponentRule1_run;
          [| assumption | reflexivity | intros _; reflexivity].
        rewrite exponentRule1_sep by reflexivity.
        rewrite exponentRule1_sep by reflexivity.
        rewrite exponentRule1_run;
          [| now apply digits_alnum | reflexivity | intros E; discriminate E].
        rewrite exponentRule1_sep by reflexivity.
        do 5 f_equal. apply IH. lia.
      * rewrite exponentRule1_run by assumption.
        rewrite exponentRule1_run.
        -- f_equal. apply IH. lia.
        -- exact Ha.
        -- eapply stops_head; [apply exponentRule1_head | exact Hr].
        -- destruct r as [|c r1]; [exact I|]. cbn [stops] in Hr.
           rewrite exponentRule1_sep by exact Hr. cbn [cannotFollow] in *.
           intros E. eapply stops_head; [apply exponentRule1_head|].
           now apply Hf.
Qed.

(** A match of the braced pattern is the text that its template spells. *)
Lemma exec_braced_shape (s m rest : jsstring) caps :
  exec bracedExponentPattern s = Some (m, caps, rest) ->
  exists a b, caps = [a; b] /\ m = a ++ str "^{" ++ b ++ str "}".
Proof.
  intros H. destruct (exec_in _ _ _ _ _ H) as [Hin E].
  unfold bracedExponentPattern in Hin.
  apply in_cat in Hin. destruct Hin as (o1 & H1 & Hin).
  apply in_grp_plusG in H1. destruct H1 as (a & E1 & _ & _ & Ec1).
  apply in_chr_cat in Hin. destruct Hin as (s2 & E2 & Hin).
  apply in_chr_cat in Hin. destruct Hin as (s3 & E3 & Hin).
  apply in_cat in Hin. destruct Hin as (o2 & H2 & Hin).
  apply in_grp_plusG in H2. destruct H2 as (b & E4 & _ & _ & Ec2).
  apply in_chr in Hin. cbn [fst snd] in Hin. destruct Hin as [E5 Ec3].
  exists a, b. split; [now rewrite Ec3, Ec2, Ec1|].
  rewrite E1, E2, E3, E4, E5 in E.
  replace (a ++ cu "^" :: cu "{" :: b ++ cu "}" :: rest)
    with ((a ++ str "^{" ++ b ++ str "}") ++ rest) in E
    by (now rewrite <- !app_assoc).
  now apply app_inv_tail in E.
Qed.

(** The second replacement of the exponent rule changes nothing. *)
Lemma exponentRule2_identity (s : jsstring) : exponentRule2 s = s.
Proof.
  apply replaceAll_id. intros s0 m caps rest E.
  destruct (exec_braced_shape _ _ _ _ E) as (a & b & -> & ->).
  apply expand_exponent.
Qed.

(** C5: the exponent rule, the two replacements one after the other, gives
    the same text when it is run again on its own result. *)
Theorem C5_exponent_rule_idempotent (s : jsstring) :
  exponentRule (exponentRule s) = exponentRule s.
Proof.
  unfold exponentRule. rewrite !exponentRule2_identity.
  now apply (exponentRule1_idempotent_upto (length s)).
Qed.

(** ** Dollars *)

Lemma notDollar_includes (s : jsstring) :
  includes c_dollar s = false <-> Forall notDollar s.
Proof.
  unfold includes. induction s as [|c s IH]; cbn [existsb].
  - split; [constructor | reflexivity].
  - rewrite orb_false_iff, IH, N.eqb_neq. split.
    + intros [Hc Hs]. constructor; [|exact Hs]. intros E. now apply Hc.
    + intros H. inversion H as [|? ? Hc Hs]. split; [|exact Hs].
      intros E. now apply Hc.
Qed.

(** A replacement keeps a property of the characters if its replacer
    does. *)
Lemma replace_from_keep (P : N -> Prop) (r : regex) f :
  (forall m caps, Forall P m -> Forall (Forall P) caps ->
                  length caps = groups r -> Forall P (f m caps)) ->
  forall s, Forall P s ->
  forall k, Forall P (flat_map (fun p => match p with
                                         | Gap c => [c]
                                         | Hit m caps => f m caps
                                         end) (scan_from r s k)).
Proof.
  intros Hf s. induction s as [|c s IH]; intros Hs k.
  - destruct k; cbn [scan_from]; [|constructor].
    destruct (exec r []) as [[[m caps] rest]|] eqn:E; [|constructor].
    destruct (exec_keep P _ _ _ _ _ Hs E) as (_ & _ & Hc & Hl).
    cbn [flat_map]. rewrite app_nil_r. apply Hf; auto.
  - inversion Hs as [|? ? Hc Hs']; subst.
    destruct k as [|k]; cbn [scan_from]; [|now apply IH].
    destruct (exec r (c :: s)) as [[[m caps] rest]|] eqn:E.
    + destruct (exec_keep P _ _ _ _ _ Hs E) as (Hm & _ & Hcaps & Hl).
      destruct m as [|x m]; cbn [length flat_map].
      * apply Forall_app. split; [apply Hf; auto|].
        constructor; [exact Hc | now apply IH].
      * apply Forall_app. split; [apply Hf; auto | now apply IH].
    + cbn [flat_map app]. constructor; [exact Hc | now apply IH].
Qed.

Lemma replaceAll_keep (P : N -> Prop) (r : regex) f (s : jsstring) :
  (forall m caps, Forall P m -> Forall (Forall P) caps ->
                  length caps = groups r -> Forall P (f m caps)) ->
  Forall P s -> Forall P (replaceAll r f s).
Proof. intros Hf Hs. now apply replace_from_keep. Qed.

Lemma notDollar_str (t : jsstring) :
  includes c_dollar t = false -> Forall notDollar t.
Proof. apply notDollar_includes. Qed.

Lemma expand_fraction (m a b : jsstring) :
  expand (str "\frac{$1}{$2}") m [a; b]
  = str "\frac{" ++ a ++ str "}{" ++ b ++ str "}".
Proof. reflexivity. Qed.

Lemma expand_root (m a : jsstring) :
  expand (str "\sqrt{$1}") m [a] = str "\sqrt{" ++ a ++ str "}".
Proof. reflexivity. Qed.

Ltac two_captures caps H :=
  destruct caps as [|?a [|?b [|? ?]]]; try discriminate H.

Ltac one_capture caps H :=
  destruct caps as [|?a [|? ?]]; try discriminate H.

Ltac keep_dollar_free :=
  repeat (apply Forall_app; split);
  try (apply notDollar_str; reflexivity); auto.

Lemma fractionRule_keeps (s : jsstring) :
  Forall notDollar s -> Forall notDollar (fractionRule s).
Proof.
  apply replaceAll_keep. intros m caps Hm Hc Hl. two_captures caps Hl.
  rewrite expand_fraction.
  inversion Hc as [|? ? Ha Hc']; subst. inversion Hc' as [|? ? Hb _]; subst.
  keep_dollar_free.
Qed.

Lemma exponentRule1_keeps (s : jsstring) :
  Forall notDollar s -> Forall notDollar (exponentRule1 s).
Proof.
  apply replaceAll_keep. intros m caps Hm Hc Hl. two_captures caps Hl.
  rewrite expand_exponent.
  inversion Hc as [|? ? Ha Hc']; subst. inversion Hc' as [|? ? Hb _]; subst.
  keep_dollar_free.
Qed.

Lemma rootRule_keeps (s : jsstring) :
  Forall notDollar s -> Forall notDollar (rootRule s).
Proof.
  intros Hs. unfold rootRule.
  apply replaceAll_keep.
  - intros m caps Hm Hc Hl. one_capture caps Hl. rewrite expand_root.
    inversion Hc as [|? ? Ha _]; subst. keep_dollar_free.
  - apply replaceAll_keep; [|exact Hs].
    intros m caps Hm Hc Hl. one_capture caps Hl. rewrite expand_root.
    inversion Hc as [|? ? Ha _]; subst. keep_dollar_free.
Qed.

(** ** The symbol rules leave marked text *)

Lemma lookupSymbol_In table (c : N) (latex : string) :
  lookupSymbol table c = Some latex -> In (c, latex) table.
Proof.
  induction table as [|[k l] table IH]; cbn [lookupSymbol]; [discriminate|].
  destruct (N.eqb_spec c k) as [->|Hne].
  - intros H. injection H as ->. now left.
  - intros H. right. now apply IH.
Qed.

Lemma greek_commands :
  forallb (fun e => isCommand (str (snd e))
                    && forallb (noSymbol operatorSymbols)
                               (symbolTemplate (snd e)))
          greekLetters = true.
Proof. vm_compute. reflexivity. Qed.

Lemma operator_commands :
  forallb (fun e : N * string => isCommand (str (snd e))) operatorSymbols
  = true.
Proof. vm_compute. reflexivity. Qed.

Lemma symbols_marked (s : jsstring) :
  Forall notDollar s -> marked (operatorRule (greekRule s)).
Proof.
  rewrite operatorRule_at_once, greekRule_at_once, flat_map_flat_map.
  induction 1 as [|c s Hc _ IH]; cbn [flat_map]; [constructor|].
  unfold substSymbol at 2.
  destruct (lookupSymbol greekLetters c) as [latex|] eqn:Eg.
  - apply lookupSymbol_In in Eg.
    pose proof (proj1 (forallb_forall _ _) greek_commands _ Eg) as Hg.
    cbn [snd] in Hg. apply andb_prop in Hg. destruct Hg as [Hcmd Hfix].
    rewrite (substSymbol_fixes _ _ Hfix). now constructor.
  - cbn [flat_map]. rewrite app_nil_r. unfold substSymbol.
    destruct (lookupSymbol operatorSymbols c) as [latex|] eqn:Eo.
    + apply lookupSymbol_In in Eo.
      pose proof (proj1 (forallb_forall _ _) operator_commands _ Eo) as Ho.
      now constructor.
    + now constructor.
Qed.

(** ** Reading the delimiters *)

Lemma delimRun_app (st : delimState) (u v : jsstring) :
  delimRun st (u ++ v) = delimRun (delimRun st u) v.
Proof. apply fold_left_app. Qed.

Lemma delimStep_plain (st : delimState) (c : N) :
  notDollar c ->
  delimStep st c = match st with
                   | Outside => Outside
                   | Opened | InInline => InInline
                   | InBlockStart | InBlock => InBlock
                   | Closing | Lost => Lost
                   end.
Proof.
  intros H. apply N.eqb_neq in H. unfold delimStep. rewrite H.
  now destruct st.
Qed.

Lemma delimRun_plain (st : delimState) (m : jsstring) :
  (st = Outside \/ st = InInline \/ st = InBlock) ->
  Forall notDollar m -> delimRun st m = st.
Proof.
  intros Hst H. induction H as [|c m Hc _ IH]; [reflexivity|].
  unfold delimRun in *. cbn [fold_left]. rewrite (delimStep_plain st c Hc).
  destruct Hst as [->|[->| ->]]; exact IH.
Qed.

Lemma delimRun_inline (tex rest : jsstring) :
  tex <> [] -> Forall notDollar tex ->
  delimRun Outside (c_dollar :: tex ++ c_dollar :: rest)
  = delimRun Outside rest.
Proof.
  intros Hne H. destruct tex as [|x tex]; [congruence|].
  inversion H as [|? ? Hx Htex]; subst.
  unfold delimRun. cbn [fold_left app].
  change (delimStep Outside c_dollar) with Opened.
  rewrite (delimStep_plain Opened x Hx).
  fold (delimRun InInline (tex ++ c_dollar :: rest)).
  rewrite delimRun_app, (delimRun_plain _ tex) by auto. reflexivity.
Qed.

Lemma delimRun_block (tex rest : jsstring) :
  tex <> [] -> Forall notDollar tex ->
  delimRun Outside (str "$$" ++ tex ++ str "$$" ++ rest)
  = delimRun Outside rest.
Proof.
  intros Hne H. destruct tex as [|x tex]; [congruence|].
  inversion H as [|? ? Hx Htex]; subst.
  unfold delimRun. cbn [fold_left app str map list_ascii_of_string].
  change (delimStep (delimStep Outside (N_of_ascii "$")) (N_of_ascii "$"))
    with InBlockStart.
  rewrite (delimStep_plain InBlockStart x Hx).
  fold (delimRun InBlock (tex ++ N_of_ascii "$" :: N_of_ascii "$" :: rest)).
  rewrite delimRun_app, (delimRun_plain _ tex) by auto. reflexivity.
Qed.

(** ** Trimming *)

Lemma trimStart_keep (P : N -> Prop) (s : jsstring) :
  Forall P s -> Forall P (trimStart s).
Proof.
  induction 1 as [|c s Hc Hs IH]; cbn [trimStart]; [constructor|].
  destruct (isWhiteSpace c); [exact IH | now constructor].
Qed.

Lemma trimStart_In (c : N) (s : jsstring) :
  In c s -> isWhiteSpace c = false -> In c (trimStart s).
Proof.
  induction s as [|x s IH]; intros Hin Hc; [contradiction|].
  cbn [trimStart]. destruct (isWhiteSpace x) eqn:Ex; [|exact Hin].
  destruct Hin as [->|Hin]; [congruence | now apply IH].
Qed.

Lemma trim_keep (P : N -> Prop) (s : jsstring) :
  Forall P s -> Forall P (trim s).
Proof.
  intros H. unfold trim, trimEnd.
  apply Forall_rev, trimStart_keep, Forall_rev, trimStart_keep, H.
Qed.

Lemma trim_In (c : N) (s : jsstring) :
  In c s -> isWhiteSpace c = false -> In c (trim s).
Proof.
  intros Hin Hc. unfold trim, trimEnd.
  apply -> in_rev. apply trimStart_In; [|exact Hc].
  apply -> in_rev. now apply trimStart_In.
Qed.

(** ** The equation rule on marked text *)

Lemma prefix_before (c : N) (m rest u v : jsstring) :
  m ++ rest = u ++ c :: v -> ~ In c m -> exists t, u = m ++ t.
Proof.
  revert u. induction m as [|x m IH]; intros u E Hc.
  - now exists u.
  - destruct u as [|y u]; cbn [app] in E; injection E as -> E.
    + destruct Hc. now left.
    + destruct (IH u E) as (t & ->).
      * intros H. apply Hc. now right.
      * now exists t.
Qed.

Lemma command_chars (name : jsstring) (c : N) :
  forallb isCommandChar name = true -> In c name ->
  c <> c_dollar /\ c <> c_eq.
Proof.
  intros H Hin. pose proof (proj1 (forallb_forall _ _) H c Hin) as Hc.
  split; intros ->; vm_compute in Hc; discriminate.
Qed.

Lemma equation_match_chars (a b : jsstring) :
  forallb isEquationChar a = true -> forallb isEquationChar b = true ->
  Forall notDollar (a ++ c_eq :: b).
Proof.
  intros Ha Hb. apply notDollar_includes. now apply no_dollar_in_equation.
Qed.

(** No match starts inside a substituted symbol. *)
Lemma equationRule_through_symbol (name s : jsstring) :
  forallb isCommandChar name = true ->
  equationRule (name ++ c_dollar :: s) = name ++ c_dollar :: equationRule s.
Proof.
  intros Hname.
  change (name ++ c_dollar :: s) with (name ++ [c_dollar] ++ s).
  rewrite app_assoc.
  unfold equationRule. rewrite replaceAll_skip.
  - now rewrite <- app_assoc.
  - intros a1 a2 E Hne.
    destruct (exec equationPattern (a2 ++ s)) as [[[m caps] rest]|] eqn:Ex;
      [exfalso | reflexivity].
    destruct (exec_equation_shape _ _ _ _ Ex)
      as (a & b & -> & _ & _ & Ha & Hb & _).
    apply exec_sound in Ex.
    assert (Hsplit : exists u, a2 = u ++ [c_dollar] /\ exists n1, name = n1 ++ u).
    { destruct (exists_last Hne) as (u & z & ->).
      rewrite app_assoc in E. apply app_inj_tail in E.
      destruct E as [E <-]. exists u. split; [reflexivity|]. now exists a1. }
    destruct Hsplit as (u & -> & n1 & ->).
    rewrite <- app_assoc in Ex. cbn [app] in Ex. symmetry in Ex.
    pose proof (equation_match_chars a b Ha Hb) as Hm.
    destruct (prefix_before c_dollar _ _ _ _ Ex) as (t & ->).
    + intros Hin. rewrite Forall_forall in Hm. now apply (Hm _ Hin).
    + assert (Hin : In c_eq (n1 ++ (a ++ c_eq :: b) ++ t)).
      { apply in_or_app. right. apply in_or_app. left.
        apply in_or_app. right. now left. }
      destruct (command_chars _ _ Hname Hin) as [_ Heq]. now apply Heq.
Qed.

Lemma marked_drop (m rest : jsstring) :
  Forall notDollar m -> marked (m ++ rest) -> marked rest.
Proof.
  induction 1 as [|x m Hx _ IH]; intros H; [exact H|].
  cbn [app] in H. remember (x :: m ++ rest) as t eqn:Et.
  destruct H as [|c s Hc Hs|latex s Hcmd Hs].
  - discriminate Et.
  - injection Et as -> ->. now apply IH.
  - exfalso. apply Hx. unfold symbolTemplate in Et. cbn [app] in Et.
    now injection Et as <- _.
Qed.

Lemma wrapIfDigit_reads_outside (a b : jsstring) :
  forallb isEquationChar a = true -> forallb isEquationChar b = true ->
  forall rest,
    delimRun Outside (wrapIfDigit (a ++ c_eq :: b) ++ rest)
    = delimRun Outside rest.
Proof.
  intros Ha Hb rest. pose proof (equation_match_chars a b Ha Hb) as Hm.
  unfold wrapIfDigit. destruct (existsb isDigit (a ++ c_eq :: b)).
  - unfold wrapBlock. rewrite <- !app_assoc. apply delimRun_block.
    + assert (Hin : In c_eq (trim (a ++ c_eq :: b))).
      { apply trim_In; [|reflexivity]. apply in_or_app. right. now left. }
      intros E. rewrite E in Hin. contradiction.
    + now apply trim_keep.
  - rewrite delimRun_app, (delimRun_plain _ (a ++ c_eq :: b)) by auto.
    reflexivity.
Qed.

Lemma equationRule_balanced_upto (n : nat) :
  forall s, length s <= n -> marked s ->
            delimRun Outside (equationRule s) = Outside.
Proof.
  induction n as [|n IH]; intros s Hn Hs.
  - destruct s; [reflexivity | simpl in Hn; lia].
  - inversion Hs as [|c s' Hc Hs' E|latex s' Hcmd Hs' E]; subst.
    + reflexivity.
    + cbn [length] in Hn.
      destruct (exec equationPattern (c :: s')) as [[[m caps] rest]|] eqn:Ex.
      * destruct (exec_equation_shape _ _ _ _ Ex)
          as (a & b & -> & Hane & _ & Ha & Hb & _).
        pose proof (exec_sound _ _ _ _ _ Ex) as Es.
        unfold equationRule.
        rewrite (replaceAll_hit _ _ _ _ _ _ Ex)
          by (destruct a; [congruence | discriminate]).
        rewrite equationReplacer_on_match by assumption.
        rewrite wrapIfDigit_reads_outside by assumption.
        apply IH.
        -- assert (Hl : length (c :: s') = length ((a ++ c_eq :: b) ++ rest))
             by now rewrite Es.
           rewrite !length_app in Hl. cbn [length] in Hl. lia.
        -- apply (marked_drop (a ++ c_eq :: b)).
           ++ now apply equation_match_chars.
           ++ rewrite <- Es. now constructor.
      * unfold equationRule. rewrite (replaceAll_miss _ _ _ _ Ex).
        unfold delimRun. cbn [fold_left].
        rewrite (delimStep_plain Outside c Hc). apply IH; [lia | exact Hs'].
    + unfold symbolTemplate in *. cbn [app length] in *.
      rewrite !length_app in Hn. cbn [length] in Hn.
      rewrite equationRule_sep by reflexivity.
      rewrite <- app_assoc. cbn [app].
      destruct (str latex) as [|x name] eqn:En; [discriminate Hcmd|].
      cbn [isCommand] in Hcmd.
      rewrite equationRule_through_symbol by exact Hcmd.
      rewrite delimRun_inline.
      * apply IH; [lia | exact Hs'].
      * discriminate.
      * apply Forall_forall. intros y Hy.
        now destruct (command_chars _ _ Hcmd Hy).
Qed.

(** ** The annotator and the delimiters *)

(** C7, as stated, fails: a dollar of the input goes through the
    annotator as it is, so the text [cost $5] comes out with one single
    dollar, which no delimiter closes. *)
Lemma C7_input_dollar_unbalanced :
  detectMathPatterns (str "cost $5") = str "cost $5" /\
  count_occ N.eq_dec (detectMathPatterns (str "cost $5")) c_dollar = 1 /\
  balanced (detectMathPatterns (str "cost $5")) = false.
Proof. repeat split; vm_compute; reflexivity. Qed.

(** C7, amended: for every input string without a dollar, the output of
    the annotator is plain text, inline regions [$...$] and block regions
    [$$...$$], every region non-empty and without a dollar inside; and the
    equation rule, the last one, wraps no text that holds a dollar of an
    earlier rule. *)
Theorem C7_balanced_without_input_dollar (text : jsstring) :
  includes c_dollar text = false ->
  balanced (detectMathPatterns text) = true /\
  hitsSatisfy (fun m _ => includes c_dollar m = false)
    (scan equationPattern
       (operatorRule
          (greekRule
             (rootRule (exponentRule2 (exponentRule1 (fractionRule text))))))).
Proof.
  intros H. split.
  - apply notDollar_includes in H. unfold detectMathPatterns, balanced.
    rewrite exponentRule2_identity.
    rewrite (equationRule_balanced_upto _ _ (le_n _)); [reflexivity|].
    apply symbols_marked, rootRule_keeps, exponentRule1_keeps,
      fractionRule_keeps, H.
  - apply scan_hits. intros s m caps rest E.
    destruct (exec_equation_shape _ _ _ _ E)
      as (a & b & -> & _ & _ & Ha & Hb & _).
    now apply no_dollar_in_equation.
Qed.

(** The example line has no dollar, and its output is balanced. *)
Lemma C7_balanced_witness :
  includes c_dollar exampleLine = false /\
  balanced (detectMathPatterns exampleLine) = true.
Proof.
  split; [reflexivity|].
  exact (proj1 (C7_balanced_without_input_dollar exampleLine eq_refl)).
Defined.

(** ** The line reconstructor *)

Lemma countBreaks_app (u v : jsstring) :
  countBreaks (u ++ v) = countBreaks u + countBreaks v.
Proof. apply count_occ_app. Qed.

Lemma breaksLine_farApart (lastY y : number) :
  breaksLine lastY y = ToBoolean lastY && farApart lastY y.
Proof. reflexivity. Qed.




(** *** The clean-up *)

Lemma exec_spaces_shape (s m rest : jsstring) caps :
  exec spacesPattern s = Some (m, caps, rest) ->
  forallb (N.eqb c_space) m = true /\ caps = [].
Proof.
  intros H. destruct (exec_in _ _ _ _ _ H) as [Hin E].
  apply in_plusG in Hin. cbn [fst snd] in Hin.
  destruct Hin as (m' & E' & _ & Hm & ->).
  rewrite E in E'. apply app_inv_tail in E'. now subst m'.
Qed.

Lemma spaces_no_break (m : jsstring) :
  forallb (N.eqb c_space) m = true -> countBreaks m = 0.
Proof.
  induction m as [|x m IH]; [reflexivity|]. cbn [forallb].
  intros H. apply andb_prop in H. destruct H as [Hx Hm].
  apply N.eqb_eq in Hx. subst x. unfold countBreaks in *.
  rewrite count_occ_cons_neq by discriminate. now apply IH.
Qed.

(** Collapsing the spaces keeps the line breaks. *)
Lemma collapse_breaks (s : jsstring) :
  countBreaks (replaceWith spacesPattern (str " ") s) = countBreaks s.
Proof.
  unfold replaceWith, replaceAll.
  rewrite <- (scan_text spacesPattern s) at 2.
  assert (H : hitsSatisfy
                (fun m caps => countBreaks (expand (str " ") m caps)
                               = countBreaks m)
                (scan spacesPattern s)).
  { apply scan_hits. intros s0 m caps rest E.
    destruct (exec_spaces_shape _ _ _ _ E) as [Hm ->].
    now rewrite (spaces_no_break m Hm). }
  induction H as [|p ps Hp _ IH]; [reflexivity|].
  cbn [flat_map]. rewrite !countBreaks_app, IH.
  destruct p; [reflexivity | cbn [pieceText]; now rewrite Hp].
Qed.

Lemma trimStart_breaks (s : jsstring) :
  countBreaks (trimStart s) <= countBreaks s.
Proof.
  induction s as [|c s IH]; [reflexivity|]. cbn [trimStart].
  destruct (isWhiteSpace c); [|reflexivity].
  unfold countBreaks in *. cbn [count_occ].
  destruct (N.eq_dec c c_nl); lia.
Qed.

Lemma trim_breaks (s : jsstring) : countBreaks (trim s) <= countBreaks s.
Proof.
  unfold trim, trimEnd.
  pose proof (trimStart_breaks s) as H1.
  pose proof (trimStart_breaks (rev (trimStart s))) as H2.
  unfold countBreaks in *. rewrite count_occ_rev in *. lia.
Qed.

Lemma cleanUp_breaks (s : jsstring) :
  countBreaks (cleanUp s) <= countBreaks s.
Proof.
  unfold cleanUp.
  rewrite <- (collapse_breaks s). apply trim_breaks.
Qed.

Lemma exec_spaces_hit (a r : jsstring) :
  forallb (N.eqb c_space) a = true -> a <> [] -> stops (N.eqb c_space) r ->
  exec spacesPattern (a ++ r) = Some (a, [], r).
Proof.
  intros Ha Hne Hr. unfold exec, spacesPattern.
  destruct (matches_run_last _ a r [] Ha Hne Hr) as (others & ->).
  cbn [fst snd]. now rewrite consumed_app.
Qed.

Lemma collapse_sep (c : N) (s : jsstring) :
  c <> c_space ->
  replaceWith spacesPattern (str " ") (c :: s)
  = c :: replaceWith spacesPattern (str " ") s.
Proof.
  intros H. apply replaceAll_miss. unfold exec, spacesPattern.
  rewrite matches_norun_last; [reflexivity|].
  cbn [stops]. apply N.eqb_neq. intros E. now apply H.
Qed.

Lemma collapse_hit (a r : jsstring) :
  forallb (N.eqb c_space) a = true -> a <> [] -> stops (N.eqb c_space) r ->
  replaceWith spacesPattern (str " ") (a ++ r)
  = c_space :: replaceWith spacesPattern (str " ") r.
Proof.
  intros Ha Hne Hr. unfold replaceWith.
  now rewrite (replaceAll_hit _ _ _ _ _ _ (exec_spaces_hit a r Ha Hne Hr)).
Qed.








(** The test on some doubles: 10 and 15.5 are far apart; 10 and 15 are
    not (the difference is 5, not above 5); the double nearest to 0.4 and
    5.5 are; an infinite baseline is far from every finite one but not
    from itself (the difference is NaN). *)
Example farApart_examples :
  farApart (integer 10) (numberOf 31 (-1)) = true /\
  farApart (integer 10) (integer 15) = false /\
  farApart (numberOf 7205759403792794 (-54)) (numberOf 11 (-1)) = true /\
  farApart (S754_infinity false) (integer 10) = true /\
  farApart (S754_infinity false) (S754_infinity false) = false.
Proof. repeat split; vm_compute; reflexivity. Qed.

(** A NaN baseline never makes a line break, neither before its fragment
    nor before the next one. *)
Lemma nan_baseline_never_breaks (y : number) :
  breaksLine S754_nan y = false /\ breaksLine y S754_nan = false.
Proof.
  split; [reflexivity|]. unfold breaksLine.
  assert (E : subtract S754_nan y = S754_nan) by (destruct y; reflexivity).
  rewrite E. apply andb_false_r.
Qed.




(* ================================================================= *)
(** * Further properties of the annotator *)

(** ** Text without the characters a pattern needs *)

Lemma matches_contains (c : N) (r : regex) :
  mustContain c r = true ->
  forall s caps o, In o (matches r s caps) ->
                   exists m, s = m ++ fst o /\ In c m.
Proof.
  induction r as [x|p|p|p|r1 IH1 r2 IH2|r1 IH1]; cbn [mustContain];
    intros Hc s caps o H; try discriminate Hc.
  - apply in_chr in H. destruct H as [-> _]. apply N.eqb_eq in Hc.
    subst x. exists [c]. split; [reflexivity | now left].
  - apply in_cat in H. destruct H as (o1 & H1 & H2).
    apply orb_prop in Hc. destruct Hc as [Hc|Hc].
    + destruct (IH1 Hc _ _ _ H1) as (m1 & -> & Hin).
      destruct (matches_suffix _ _ _ _ H2) as (m2 & ->).
      exists (m1 ++ m2). rewrite app_assoc. split; [reflexivity|].
      apply in_or_app. now left.
    + destruct (matches_suffix _ _ _ _ H1) as (m1 & ->).
      destruct (IH2 Hc _ _ _ H2) as (m2 & -> & Hin).
      exists (m1 ++ m2). rewrite app_assoc. split; [reflexivity|].
      apply in_or_app. now right.
  - rewrite matches_grp in H. apply in_map_iff in H.
    destruct H as (o1 & <- & H). exact (IH1 Hc _ _ _ H).
Qed.

Lemma exec_contains (c : N) (r : regex) (s m rest : jsstring) caps :
  mustContain c r = true -> exec r s = Some (m, caps, rest) -> In c m.
Proof.
  intros Hc H. destruct (exec_in _ _ _ _ _ H) as [Hin E].
  destruct (matches_contains c r Hc _ _ _ Hin) as (m' & E' & Hm).
  cbn [fst] in E'. rewrite E in E'. apply app_inv_tail in E'. now subst m'.
Qed.

Lemma exec_untriggered (c : N) (r : regex) (s : jsstring) :
  mustContain c r = true -> ~ In c s -> exec r s = None.
Proof.
  intros Hc Hs. destruct (exec r s) as [[[m caps] rest]|] eqn:E;
    [exfalso | reflexivity].
  apply Hs. rewrite (exec_sound _ _ _ _ _ E). apply in_or_app. left.
  exact (exec_contains c r _ _ _ _ Hc E).
Qed.

(** Without the character that the pattern needs, the scan finds
    nothing. *)
Lemma scan_untriggered (c : N) (r : regex) (s : jsstring) :
  mustContain c r = true -> ~ In c s -> scan r s = map Gap s.
Proof.
  intros Hc. induction s as [|x s IH]; intros Hs.
  - apply scan_nil. now apply (exec_untriggered c).
  - rewrite scan_miss by now apply (exec_untriggered c).
    cbn [map]. f_equal. apply IH. intros H. apply Hs. now right.
Qed.

Lemma replaceAll_untriggered (c : N) (r : regex) f (s : jsstring) :
  mustContain c r = true -> ~ In c s -> replaceAll r f s = s.
Proof.
  intros Hc Hs. unfold replaceAll. rewrite (scan_untriggered c r s Hc Hs).
  induction s as [|x s IH]; [reflexivity|]. cbn [map flat_map app].
  f_equal. apply IH. intros H. apply Hs. now right.
Qed.

Lemma untriggered_parts (s : jsstring) :
  existsb isMathTrigger s = false ->
  ~ In (cu "/") s /\ ~ In (cu "^") s /\ ~ In c_sqrt s /\ ~ In c_eq s /\
  forallb (noSymbol greekLetters) s = true /\
  forallb (noSymbol operatorSymbols) s = true.
Proof.
  induction s as [|x s IH]; cbn [existsb forallb].
  - intros _. repeat split; auto.
  - intros H. apply orb_false_iff in H. destruct H as [Hx Hs].
    destruct (IH Hs) as (H1 & H2 & H3 & H4 & H5 & H6).
    unfold isMathTrigger in Hx. rewrite !orb_false_iff in Hx.
    destruct Hx as (((((E1 & E2) & E3) & E4) & E5) & E6).
    apply negb_false_iff in E5, E6. rewrite E5, E6, H5, H6.
    apply N.eqb_neq in E1, E2, E3, E4.
    repeat split; auto; intros [E|Hin]; auto.
Qed.

(** X1: text that holds none of the characters the rules look for (no
    slash, caret, root sign, equals sign, Greek letter of the table or
    operator symbol) leaves the annotator as it came. *)
Theorem plain_text_unchanged (text : jsstring) :
  existsb isMathTrigger text = false -> detectMathPatterns text = text.
Proof.
  intros H.
  destruct (untriggered_parts text H) as (H1 & H2 & H3 & H4 & H5 & H6).
  unfold detectMathPatterns.
  assert (E1 : fractionRule text = text)
    by (apply (replaceAll_untriggered (cu "/")); [reflexivity | exact H1]).
  assert (E2 : exponentRule1 text = text)
    by (apply (replaceAll_untriggered (cu "^")); [reflexivity | exact H2]).
  assert (E3 : rootRule text = text).
  { unfold rootRule, replaceWith.
    rewrite (replaceAll_untriggered c_sqrt rootParenPattern)
      by (reflexivity || exact H3).
    apply (replaceAll_untriggered c_sqrt); [reflexivity | exact H3]. }
  assert (E4 : greekRule text = text)
    by (rewrite greekRule_at_once; now apply substSymbol_fixes).
  assert (E5 : operatorRule text = text)
    by (rewrite operatorRule_at_once; now apply substSymbol_fixes).
  rewrite E1, E2, exponentRule2_identity, E3, E4, E5.
  apply (replaceAll_untriggered c_eq); [reflexivity | exact H4].
Qed.

(** A sentence with digits, letters and punctuation, and no trigger. *)
Lemma plain_text_unchanged_witness :
  existsb isMathTrigger (str "Chapter 12: results (see page 3).") = false /\
  detectMathPatterns (str "Chapter 12: results (see page 3).")
  = str "Chapter 12: results (see page 3).".
Proof.
  split; [reflexivity|]. apply plain_text_unchanged. reflexivity.
Defined.

(** ** The equation rule needs a digit *)

(** The scan of a text keeps a property of its characters in the matches
    and the captures. *)
Lemma scan_from_keep (P : N -> Prop) (r : regex) (s : jsstring) :
  Forall P s ->
  forall k, hitsSatisfy (fun m caps => Forall P m /\ Forall (Forall P) caps)
                        (scan_from r s k).
Proof.
  induction s as [|c s IH]; intros Hs k.
  - destruct k; cbn [scan_from]; [|constructor].
    destruct (exec r []) as [[[m caps] rest]|] eqn:E; [|constructor].
    destruct (exec_keep P _ _ _ _ _ Hs E) as (_ & _ & Hc & _).
    constructor; [|constructor]. split; [constructor | exact Hc].
  - inversion Hs as [|? ? Hc Hs']; subst.
    destruct k as [|k]; cbn [scan_from]; [|now apply IH].
    destruct (exec r (c :: s)) as [[[m caps] rest]|] eqn:E.
    + destruct (exec_keep P _ _ _ _ _ Hs E) as (Hm & _ & Hcaps & _).
      destruct m as [|x m]; cbn [length].
      * constructor; [split; [constructor | exact Hcaps]|].
        constructor; [exact I | now apply IH].
      * constructor; [now split | now apply IH].
    + constructor; [exact I | now apply IH].
Qed.

(** A replacer that gives back the matches made of such characters
    changes nothing in a text made of them. *)
Lemma replaceAll_id_on (P : N -> Prop) (r : regex) f (s : jsstring) :
  (forall m caps, Forall P m -> f m caps = m) ->
  Forall P s -> replaceAll r f s = s.
Proof.
  intros Hf Hs. unfold replaceAll.
  rewrite <- (scan_text r s) at 2.
  pose proof (scan_from_keep P r s Hs 0) as H. fold (scan r s) in H.
  induction H as [|p ps Hp _ IH]; [reflexivity|].
  cbn [flat_map]. rewrite IH. destruct p as [c|m caps]; [reflexivity|].
  cbn [pieceText]. now rewrite (Hf m caps (proj1 Hp)).
Qed.

Lemma notDigit_existsb (s : jsstring) :
  existsb isDigit s = false <-> Forall notDigit s.
Proof.
  unfold notDigit. induction s as [|c s IH]; cbn [existsb].
  - split; [constructor | reflexivity].
  - rewrite orb_false_iff, IH. split.
    + intros [Hc Hs]. now constructor.
    + intros H. inversion H. now split.
Qed.

(** X2: the equation rule wraps nothing in a text that has no digit. *)
Theorem equation_rule_needs_digit (s : jsstring) :
  existsb isDigit s = false -> equationRule s = s.
Proof.
  intros H. apply (replaceAll_id_on notDigit).
  - intros m caps Hm. apply notDigit_existsb in Hm.
    unfold equationReplacer. rewrite !test_Cls, Hm, andb_false_r.
    now destruct (includes c_dollar m).
  - now apply notDigit_existsb.
Qed.

(** An equation between letters. *)
Lemma equation_rule_needs_digit_witness :
  existsb isDigit (str "a = b + c") = false /\
  equationRule (str "a = b + c") = str "a = b + c".
Proof.
  split; [reflexivity|]. apply equation_rule_needs_digit. reflexivity.
Defined.

(** ** The fraction rule *)

Lemma isDigit_not_slash (x : N) : isDigit x = true -> x <> cu "/".
Proof. intros H ->. vm_compute in H. discriminate. Qed.

Lemma fraction_tail_rejects (x : N) t caps :
  isDigit x = true ->
  matches (Chr (cu "/") @@ Grp (PlusG isDigit)) (x :: t) caps = [].
Proof. intros H. apply matches_chr_reject. now apply isDigit_not_slash. Qed.

Lemma exec_fraction_hit (a d r : jsstring) :
  forallb isDigit a = true -> a <> [] ->
  forallb isDigit d = true -> d <> [] -> stops isDigit r ->
  exec fractionPattern (a ++ cu "/" :: d ++ r)
  = Some (a ++ cu "/" :: d, [a; d], r).
Proof.
  intros Ha Hane Hd Hdne Hr. unfold exec, fractionPattern.
  rewrite matches_grp_run; auto.
  - rewrite matches_chr_accept.
    destruct (matches_grp_run_last isDigit d r ([] ++ [a]) Hd Hdne Hr)
      as (others & ->).
    cbn [fst snd app].
    change (a ++ cu "/" :: d ++ r) with (a ++ (cu "/" :: d) ++ r).
    rewrite app_assoc, consumed_app. reflexivity.
  - reflexivity.
  - intros x t caps' Hx. now apply fraction_tail_rejects.
Qed.

Lemma exec_fraction_norun (s : jsstring) :
  stops isDigit s -> exec fractionPattern s = None.
Proof.
  intros H. unfold exec, fractionPattern. now rewrite matches_grp_norun.
Qed.

Lemma exec_fraction_miss (a r : jsstring) :
  forallb isDigit a = true -> a <> [] ->
  stops isDigit r -> cannotFollow (cu "/") isDigit r ->
  exec fractionPattern (a ++ r) = None.
Proof.
  intros Ha Hane Hr Hf. unfold exec, fractionPattern.
  rewrite matches_grp_run; auto.
  - destruct r as [|x r1]; [reflexivity|].
    destruct (N.eq_dec x (cu "/")) as [->|Hx].
    + rewrite matches_chr_accept, matches_grp_norun_last; [reflexivity|].
      now apply Hf.
    + now rewrite matches_chr_reject.
  - intros x t caps' Hx. now apply fraction_tail_rejects.
Qed.

Lemma fractionRule_sep (c : N) (s : jsstring) :
  isDigit c = false -> fractionRule (c :: s) = c :: fractionRule s.
Proof. intros H. apply replaceAll_miss. now apply exec_fraction_norun. Qed.

(** Characters that are no digits are stepped over. *)
Lemma fractionRule_literal (t s : jsstring) :
  existsb isDigit t = false -> fractionRule (t ++ s) = t ++ fractionRule s.
Proof.
  induction t as [|c t IH]; [reflexivity|]. cbn [existsb app].
  intros H. apply orb_false_iff in H. destruct H as [Hc Ht].
  now rewrite fractionRule_sep, IH.
Qed.

Lemma fractionRule_run (a r : jsstring) :
  forallb isDigit a = true ->
  stops isDigit r -> cannotFollow (cu "/") isDigit r ->
  fractionRule (a ++ r) = a ++ fractionRule r.
Proof.
  intros Ha Hr Hf. apply replaceAll_skip. intros a1 a2 -> Hne.
  apply exec_fraction_miss; auto. now apply forallb_suffix in Ha.
Qed.

Lemma fractionRule_hit (a d r : jsstring) :
  forallb isDigit a = true -> a <> [] ->
  forallb isDigit d = true -> d <> [] -> stops isDigit r ->
  fractionRule (a ++ cu "/" :: d ++ r)
  = str "\frac{" ++ a ++ str "}{" ++ d ++ str "}" ++ fractionRule r.
Proof.
  intros Ha Hane Hd Hdne Hr. unfold fractionRule, replaceWith.
  rewrite (replaceAll_hit _ _ _ _ _ _ (exec_fraction_hit a d r Ha Hane Hd Hdne Hr)).
  - rewrite expand_fraction. now rewrite <- !app_assoc.
  - destruct a; [congruence | discriminate].
Qed.

Lemma fractionRule_stops (r : jsstring) :
  stops isDigit r -> stops isDigit (fractionRule r).
Proof.
  destruct r as [|c r]; cbn [stops]; intros H; [exact I|].
  now rewrite fractionRule_sep.
Qed.

Lemma fractionRule_idempotent_upto (n : nat) :
  forall s, length s <= n ->
            fractionRule (fractionRule s) = fractionRule s.
Proof.
  induction n as [|n IH]; intros s Hn.
  - destruct s; [reflexivity | simpl in Hn; lia].
  - destruct (run_split isDigit s) as (a & r & -> & Ha & Hr).
    rewrite length_app in Hn. destruct a as [|x a].
    + cbn [app] in *. destruct r as [|c r]; [reflexivity|].
      cbn [stops] in Hr. rewrite !fractionRule_sep by exact Hr.
      f_equal. apply IH. simpl in Hn. lia.
    + assert (Hne : x :: a <> []) by discriminate.
      remember (x :: a) as A eqn:EA.
      assert (HA : 1 <= length A) by (subst A; simpl; lia).
      destruct (follow_cases (cu "/") isDigit r)
        as [(d & r3 & -> & Hdne & Hd & Hr3)|Hf].
      * rewrite fractionRule_hit by assumption.
        cbn [length] in Hn. rewrite length_app in Hn.
        rewrite fractionRule_literal by reflexivity.
        rewrite fractionRule_run;
          [| assumption | reflexivity
           | intros E; vm_compute in E; discriminate E].
        rewrite fractionRule_literal by reflexivity.
        rewrite fractionRule_run;
          [| assumption | reflexivity
           | intros E; vm_compute in E; discriminate E].
        rewrite fractionRule_literal by reflexivity.
        do 5 f_equal. apply IH. lia.
      * rewrite fractionRule_run by assumption.
        rewrite fractionRule_run.
        -- f_equal. apply IH. lia.
        -- exact Ha.
        -- now apply fractionRule_stops.
        -- destruct r as [|c r1]; [exact I|]. cbn [stops] in Hr.
           rewrite fractionRule_sep by exact Hr. cbn [cannotFollow] in *.
           intros E. apply fractionRule_stops. now apply Hf.
Qed.

(** ** A rule leaves no match of its pattern *)

Lemma test_scan (r : regex) (s : jsstring) :
  test r s = existsb isHit (scan r s).
Proof.
  unfold scan. induction s as [|c s IH]; cbn [test scan_from].
  - now destruct (exec r []) as [[[m caps] rest]|].
  - destruct (exec r (c :: s)) as [[[m caps] rest]|].
    + now destruct (length m).
    + exact IH.
Qed.

Lemma replaced_length (f : jsstring -> list jsstring -> jsstring)
    (ps : list piece) :
  hitsSatisfy (fun m caps => length m < length (f m caps)) ps ->
  length (flat_map pieceText ps)
  + (if existsb isHit ps then 1 else 0)
  <= length (flat_map (fun p => match p with
                                | Gap c => [c]
                                | Hit m caps => f m caps
                                end) ps).
Proof.
  induction 1 as [|p ps Hp _ IH]; [reflexivity|].
  cbn [flat_map existsb]. rewrite !length_app.
  destruct p as [c|m caps]; cbn [pieceText isHit orb length].
  - lia.
  - destruct (existsb isHit ps); lia.
Qed.

(** If every replacement is longer than its match, a text that the
    replacement leaves as it is holds no match. *)
Lemma fixed_text_has_no_match (r : regex) f (s : jsstring) :
  (forall s0 m caps rest, exec r s0 = Some (m, caps, rest) ->
                          length m < length (f m caps)) ->
  replaceAll r f s = s -> test r s = false.
Proof.
  intros Hf Hfix. rewrite test_scan.
  pose proof (replaced_length f _ (scan_hits _ r Hf s)) as H.
  fold (replaceAll r f s) in H. rewrite Hfix, scan_text in H.
  destruct (existsb isHit (scan r s)); [lia | reflexivity].
Qed.

(** A match of two groups of digits or letters around one character. *)
Lemma exec_two_runs_shape (p1 p2 : N -> bool) (c : N)
    (s m rest : jsstring) caps :
  exec (Grp (PlusG p1) @@ Chr c @@ Grp (PlusG p2)) s
  = Some (m, caps, rest) ->
  exists a d, caps = [a; d] /\ m = a ++ c :: d.
Proof.
  intros H. destruct (exec_in _ _ _ _ _ H) as [Hin E].
  apply in_cat in Hin. destruct Hin as (o1 & H1 & Hin).
  apply in_grp_plusG in H1. destruct H1 as (a & E1 & _ & _ & Ec1).
  apply in_chr_cat in Hin. destruct Hin as (s2 & E2 & Hin).
  apply in_grp_plusG in Hin. cbn [fst snd] in Hin.
  destruct Hin as (d & E3 & _ & _ & Ec2).
  exists a, d. split; [now rewrite Ec2, Ec1|].
  rewrite E1, E2, E3 in E.
  change (a ++ c :: d ++ rest) with (a ++ (c :: d) ++ rest) in E.
  rewrite app_assoc in E. now apply app_inv_tail in E.
Qed.

(** X3: the fraction rule gives the same text when it is run again on its
    own result, and its result holds no [<digits>/<digits>] any more. *)
Theorem fraction_rule_complete (s : jsstring) :
  fractionRule (fractionRule s) = fractionRule s /\
  test fractionPattern (fractionRule s) = false.
Proof.
  assert (H : fractionRule (fractionRule s) = fractionRule s)
    by now apply (fractionRule_idempotent_upto (length s)).
  split; [exact H|].
  apply (fixed_text_has_no_match _ (expand (str "\frac{$1}{$2}")));
    [|exact H].
  intros s0 m caps rest E.
  destruct (exec_two_runs_shape _ _ _ _ _ _ _ E) as (a & d & -> & ->).
  rewrite expand_fraction. cbn [str map list_ascii_of_string app length].
  rewrite ?length_app. cbn [length]. rewrite ?length_app. cbn [length]. lia.
Qed.

(** X4: the result of the exponent rule holds no [<alnum>^<digits>] any
    more. *)
Theorem exponent_rule_complete (s : jsstring) :
  test exponentPattern (exponentRule s) = false.
Proof.
  unfold exponentRule. rewrite exponentRule2_identity.
  apply (fixed_text_has_no_match _ (expand (str "$1^{$2}"))).
  - intros s0 m caps rest E.
    destruct (exec_two_runs_shape _ _ _ _ _ _ _ E) as (a & d & -> & ->).
    rewrite expand_exponent. cbn [str map list_ascii_of_string app length].
    rewrite ?length_app. cbn [length]. rewrite ?length_app. cbn [length].
    lia.
  - now apply (exponentRule1_idempotent_upto (length s)).
Qed.

(** ** The two symbol rules together *)

Lemma lookupSymbol_app (t1 t2 : list (N * string)) (c : N) :
  lookupSymbol (t1 ++ t2) c
  = match lookupSymbol t1 c with
    | Some latex => Some latex
    | None => lookupSymbol t2 c
    end.
Proof.
  induction t1 as [|[k l] t1 IH]; [reflexivity|]. cbn [app lookupSymbol].
  now destruct (c =? k)%N.
Qed.

Lemma symbol_tables_disjoint :
  forallb (fun e : N * string => noSymbol operatorSymbols (fst e))
          greekLetters = true.
Proof. vm_compute. reflexivity. Qed.

Lemma substSymbol_either_order (c : N) :
  substSymbol (greekLetters ++ operatorSymbols) c
  = substSymbol (operatorSymbols ++ greekLetters) c.
Proof.
  unfold substSymbol. rewrite !lookupSymbol_app.
  destruct (lookupSymbol greekLetters c) as [l|] eqn:Eg;
    destruct (lookupSymbol operatorSymbols c) as [l'|] eqn:Eo;
    try reflexivity.
  exfalso. apply lookupSymbol_In in Eg.
  pose proof (proj1 (forallb_forall _ _) symbol_tables_disjoint _ Eg) as H.
  cbn [fst] in H. unfold noSymbol in H. now rewrite Eo in H.
Qed.

Lemma symbols_both_ok :
  sequentialOk (greekLetters ++ operatorSymbols) = true /\
  sequentialOk (operatorSymbols ++ greekLetters) = true.
Proof. split; vm_compute; reflexivity. Qed.

(** X5: the Greek rule and the operator rule, one after the other in
    either order, substitute every character by the entry it has in one of
    the two tables, all at once: the 44 symbols are distinct, and the
    templates of one rule hold no symbol of the other. *)
Theorem symbol_rules_commute (s : jsstring) :
  operatorRule (greekRule s)
  = flat_map (substSymbol (greekLetters ++ operatorSymbols)) s /\
  greekRule (operatorRule s) = operatorRule (greekRule s) /\
  NoDup (map fst (greekLetters ++ operatorSymbols)) /\
  length (greekLetters ++ operatorSymbols) = 44.
Proof.
  assert (H1 : operatorRule (greekRule s)
               = flat_map (substSymbol (greekLetters ++ operatorSymbols)) s).
  { unfold operatorRule, greekRule. rewrite <- fold_left_app.
    apply replaceSymbols_at_once, symbols_both_ok. }
  split; [exact H1|]. split.
  - rewrite H1. unfold operatorRule, greekRule. rewrite <- fold_left_app.
    rewrite (replaceSymbols_at_once _ (proj2 symbols_both_ok)).
    apply flat_map_ext. intros c. symmetry. apply substSymbol_either_order.
  - split; [|reflexivity].
    apply (NoDup_count_occ' N.eq_dec). intros c Hc. cbn in Hc.
    repeat (destruct Hc as [<-|Hc]; [vm_compute; reflexivity|]).
    contradiction.
Qed.

(** ** The root rule *)

Lemma exec_rootDigits_hit (d r : jsstring) :
  forallb isDigit d = true -> d <> [] -> stops isDigit r ->
  exec rootDigitsPattern (c_sqrt :: d ++ r) = Some (c_sqrt :: d, [d], r).
Proof.
  intros Hd Hne Hr. unfold exec, rootDigitsPattern.
  rewrite matches_chr_accept.
  destruct (matches_grp_run_last isDigit d r [] Hd Hne Hr) as (others & ->).
  cbn [fst snd app].
  change (c_sqrt :: d ++ r) with ((c_sqrt :: d) ++ r).
  now rewrite consumed_app.
Qed.

Lemma rootDigitsRule_sep (c : N) (s : jsstring) :
  c <> c_sqrt -> rootDigitsRule (c :: s) = c :: rootDigitsRule s.
Proof.
  intros H. apply replaceAll_miss. unfold exec, rootDigitsPattern.
  now rewrite matches_chr_reject.
Qed.

Lemma rootDigitsRule_bare (r : jsstring) :
  stops isDigit r ->
  rootDigitsRule (c_sqrt :: r) = c_sqrt :: rootDigitsRule r.
Proof.
  intros H. apply replaceAll_miss. unfold exec, rootDigitsPattern.
  now rewrite matches_chr_accept, matches_grp_norun_last.
Qed.

Lemma rootDigitsRule_hit (d r : jsstring) :
  forallb isDigit d = true -> d <> [] -> stops isDigit r ->
  rootDigitsRule (c_sqrt :: d ++ r)
  = str "\sqrt{" ++ d ++ str "}" ++ rootDigitsRule r.
Proof.
  intros Hd Hne Hr. unfold rootDigitsRule, replaceWith.
  rewrite (replaceAll_hit _ _ _ _ _ _ (exec_rootDigits_hit d r Hd Hne Hr))
    by discriminate.
  rewrite expand_root. now rewrite <- !app_assoc.
Qed.

Lemma rootDigitsRule_literal (t s : jsstring) :
  includes c_sqrt t = false ->
  rootDigitsRule (t ++ s) = t ++ rootDigitsRule s.
Proof.
  unfold includes. induction t as [|c t IH]; [reflexivity|].
  cbn [existsb app]. intros H. apply orb_false_iff in H.
  destruct H as [Hc Ht]. apply N.eqb_neq in Hc.
  rewrite rootDigitsRule_sep, IH; auto.
Qed.

Lemma digits_no_root (d : jsstring) :
  forallb isDigit d = true -> includes c_sqrt d = false.
Proof.
  unfold includes. induction d as [|x d IH]; [reflexivity|].
  cbn [forallb existsb]. intros H. apply andb_prop in H.
  destruct H as [Hx Hd]. rewrite (IH Hd), orb_false_r.
  apply N.eqb_neq. intros E. rewrite <- E in Hx. discriminate Hx.
Qed.

Lemma rootDigitsRule_stops (r : jsstring) :
  stops isDigit r -> stops isDigit (rootDigitsRule r).
Proof.
  destruct r as [|x r]; cbn [stops]; intros H; [exact I|].
  destruct (N.eq_dec x c_sqrt) as [->|Hx].
  - destruct (run_split isDigit r) as (d & r2 & -> & Hd & Hr2).
    destruct d as [|y d].
    + cbn [app]. now rewrite rootDigitsRule_bare.
    + rewrite rootDigitsRule_hit by (assumption || discriminate).
      reflexivity.
  - now rewrite rootDigitsRule_sep.
Qed.

Lemma rootDigitsRule_idempotent_upto (n : nat) :
  forall s, length s <= n ->
            rootDigitsRule (rootDigitsRule s) = rootDigitsRule s.
Proof.
  induction n as [|n IH]; intros s Hn.
  - destruct s; [reflexivity | simpl in Hn; lia].
  - destruct s as [|c s]; [reflexivity|]. cbn [length] in Hn.
    destruct (N.eq_dec c c_sqrt) as [->|Hc].
    + destruct (run_split isDigit s) as (d & r & -> & Hd & Hr).
      rewrite length_app in Hn. destruct d as [|y d].
      * cbn [app] in *. rewrite rootDigitsRule_bare by exact Hr.
        rewrite rootDigitsRule_bare by now apply rootDigitsRule_stops.
        f_equal. apply IH. lia.
      * assert (Hne : y :: d <> []) by discriminate.
        remember (y :: d) as D eqn:ED.
        rewrite rootDigitsRule_hit by assumption.
        rewrite rootDigitsRule_literal by reflexivity.
        rewrite rootDigitsRule_literal by now apply digits_no_root.
        rewrite rootDigitsRule_literal by reflexivity.
        do 3 f_equal. apply IH. lia.
    + rewrite !rootDigitsRule_sep by exact Hc. f_equal. apply IH. lia.
Qed.

(** X6: the result of the root rule holds no root sign followed by a digit:
    every bare root of digits has become a [\sqrt]. *)
Theorem root_rule_complete (s : jsstring) :
  test rootDigitsPattern (rootRule s) = false.
Proof.
  change (rootRule s) with (rootDigitsRule (rootParenRule s)).
  apply (fixed_text_has_no_match _ (expand (str "\sqrt{$1}"))).
  - intros s0 m caps rest E. destruct (exec_in _ _ _ _ _ E) as [Hin Es].
    unfold rootDigitsPattern in Hin.
    apply in_chr_cat in Hin. destruct Hin as (s1 & E1 & Hin).
    apply in_grp_plusG in Hin. cbn [fst snd] in Hin.
    destruct Hin as (d & E2 & _ & _ & ->).
    rewrite E1, E2 in Es.
    change (c_sqrt :: d ++ rest) with ((c_sqrt :: d) ++ rest) in Es.
    apply app_inv_tail in Es. subst m.
    cbn [app]. rewrite expand_root.
    cbn [str map list_ascii_of_string app length].
    rewrite ?length_app. cbn [length]. lia.
  - apply (rootDigitsRule_idempotent_upto (length (rootParenRule s))).
    reflexivity.
Qed.

(* ================================================================= *)
(** * Further properties of the line reconstructor *)

Lemma crossings_cons_le (y : number) (ys : list number) :
  crossings ys <= crossings (y :: ys).
Proof. destruct ys; cbn [crossings]; lia. Qed.

Lemma crossingsAfter_le (y : number) (ys : list number) :
  crossingsAfter y ys <= crossings (y :: ys).
Proof.
  unfold crossingsAfter.
  destruct (ToBoolean y); [lia | apply crossings_cons_le].
Qed.

Lemma addItems_bound (textItems : list textItem) :
  forall pageText lastY,
    countBreaks (fst (fold_left addItem textItems (pageText, lastY)))
    <= countBreaks pageText
       + crossingsAfter lastY (baselines textItems) + ownBreaks textItems.
Proof.
  induction textItems as [|[itemStr y|] rest IH]; intros pageText lastY.
  - unfold crossingsAfter.
    destruct (ToBoolean lastY);
      cbn [fold_left fst baselines ownBreaks crossings]; lia.
  - cbn [fold_left addItem baselines ownBreaks].
    pose proof (crossingsAfter_le y (baselines rest)) as Hle.
    rewrite breaksLine_farApart.
    unfold crossingsAfter.
    destruct (ToBoolean lastY); cbn [andb].
    + change (crossings (lastY :: y :: baselines rest))
        with ((if farApart lastY y then 1 else 0)
              + crossings (y :: baselines rest)).
      destruct (farApart lastY y).
      * specialize (IH ((pageText ++ [c_nl]) ++ itemStr ++ [c_space]) y).
        rewrite !countBreaks_app in IH.
        change (countBreaks [c_space]) with 0 in IH.
        change (countBreaks [c_nl]) with 1 in IH. lia.
      * specialize (IH (pageText ++ itemStr ++ [c_space]) y).
        rewrite !countBreaks_app in IH.
        change (countBreaks [c_space]) with 0 in IH. lia.
    + specialize (IH (pageText ++ itemStr ++ [c_space]) y).
      rewrite !countBreaks_app in IH.
      change (countBreaks [c_space]) with 0 in IH. lia.
  - cbn [fold_left addItem baselines ownBreaks]. apply IH.
Qed.

(** X7: whatever the baselines are (any doubles: zeros, NaN and
    infinities too), the reconstructor never puts more line breaks than
    there are boundaries at which the difference of the two baselines, as
    the double arithmetic gives it, is above 5 in absolute value: the text
    of a page holds at most these and the line breaks of the fragments'
    own strings.  Fragments whose difference is not above 5 are never
    cut. *)
Theorem never_more_breaks_than_crossings (textItems : list textItem) :
  countBreaks (reconstructLines textItems)
  <= countBreaks (accumulateText textItems) /\
  countBreaks (accumulateText textItems)
  <= crossings (baselines textItems) + ownBreaks textItems.
Proof.
  split; [apply cleanUp_breaks|].
  unfold accumulateText.
  pose proof (addItems_bound textItems [] (integer 0)) as H.
  exact H.
Qed.

(** ** The clean-up *)

Lemma collapse_stops (r : jsstring) :
  stops (N.eqb c_space) r ->
  stops (N.eqb c_space) (replaceWith spacesPattern (str " ") r).
Proof.
  destruct r as [|c r]; cbn [stops]; intros H; [exact I|].
  rewrite collapse_sep; [exact H|].
  apply N.eqb_neq in H. intros E. now apply H.
Qed.

Lemma noDoubleSpace_cons (c : N) (t : jsstring) :
  stops (N.eqb c_space) t \/ N.eqb c_space c = false ->
  noDoubleSpace t = true -> noDoubleSpace (c :: t) = true.
Proof.
  intros H Ht. cbn [noDoubleSpace]. rewrite Ht, andb_true_r.
  destruct H as [H|H].
  - destruct t as [|b t]; [now rewrite andb_false_r|].
    cbn [stops] in H. now rewrite H, andb_false_r.
  - now rewrite H.
Qed.

Lemma collapse_noDouble_upto (n : nat) :
  forall s, length s <= n ->
            noDoubleSpace (replaceWith spacesPattern (str " ") s) = true.
Proof.
  induction n as [|n IH]; intros s Hn.
  - destruct s; [reflexivity | simpl in Hn; lia].
  - destruct (run_split (N.eqb c_space) s) as (a & r & -> & Ha & Hr).
    rewrite length_app in Hn. destruct a as [|x a].
    + cbn [app] in *. destruct r as [|c r]; [reflexivity|].
      cbn [stops] in Hr. pose proof Hr as Hc. apply N.eqb_neq in Hc.
      rewrite collapse_sep by (intros E; now apply Hc).
      apply noDoubleSpace_cons; [now right|]. apply IH. simpl in Hn. lia.
    + assert (Hne : x :: a <> []) by discriminate.
      remember (x :: a) as A eqn:EA.
      assert (HA : 1 <= length A) by (subst A; simpl; lia).
      rewrite collapse_hit by assumption.
      apply noDoubleSpace_cons; [left; now apply collapse_stops|].
      apply IH. lia.
Qed.

Lemma noDoubleSpace_infix (t : jsstring) :
  noDoubleSpace t = true <->
  (forall u v, t <> u ++ c_space :: c_space :: v).
Proof.
  induction t as [|a t IH].
  - split; [|reflexivity]. intros _ u v E. now destruct u.
  - cbn [noDoubleSpace]. rewrite andb_true_iff, IH. split.
    + intros [Ha Ht] u v E. destruct u as [|x u]; cbn [app] in E.
      * injection E as -> ->. now rewrite !N.eqb_refl in Ha.
      * injection E as _ E. now apply (Ht u v).
    + intros H. split.
      * destruct (N.eqb_spec c_space a) as [<-|]; [|reflexivity].
        destruct t as [|b t]; [reflexivity|].
        destruct (N.eqb_spec c_space b) as [<-|]; [|reflexivity].
        now destruct (H [] t).
      * intros u v E. apply (H (a :: u) v). now rewrite E.
Qed.

Lemma trimStart_suffix (s : jsstring) : exists pre, s = pre ++ trimStart s.
Proof.
  induction s as [|c s IH]; [now exists []|]. cbn [trimStart].
  destruct (isWhiteSpace c); [|now exists []].
  destruct IH as (pre & E). exists (c :: pre). cbn [app]. now rewrite <- E.
Qed.

Lemma trimEnd_prefix (s : jsstring) : exists post, s = trimEnd s ++ post.
Proof.
  unfold trimEnd. destruct (trimStart_suffix (rev s)) as (pre & E).
  exists (rev pre). rewrite <- rev_app_distr, <- E. now rewrite rev_involutive.
Qed.

Lemma trim_infix (s : jsstring) :
  exists pre post, s = pre ++ trim s ++ post.
Proof.
  unfold trim. destruct (trimStart_suffix s) as (pre & E).
  destruct (trimEnd_prefix (trimStart s)) as (post & E').
  exists pre, post. now rewrite <- E', <- E.
Qed.

Lemma trimStart_stops (s : jsstring) : stops isWhiteSpace (trimStart s).
Proof.
  induction s as [|c s IH]; [exact I|]. cbn [trimStart].
  destruct (isWhiteSpace c) eqn:E; [exact IH | exact E].
Qed.

Lemma trim_stops (s : jsstring) :
  stops isWhiteSpace (trim s) /\ stops isWhiteSpace (rev (trim s)).
Proof.
  split.
  - unfold trim. pose proof (trimStart_stops s) as H.
    destruct (trimEnd_prefix (trimStart s)) as (post & E).
    destruct (trimEnd (trimStart s)) as [|x t]; [exact I|].
    rewrite E in H. exact H.
  - unfold trim, trimEnd. rewrite rev_involutive. apply trimStart_stops.
Qed.

Lemma cleanUp_noDouble (s : jsstring) : noDoubleSpace (cleanUp s) = true.
Proof.
  apply noDoubleSpace_infix. intros u v E. unfold cleanUp in E.
  destruct (trim_infix (replaceWith spacesPattern (str " ") s))
    as (pre & post & Es).
  pose proof (collapse_noDouble_upto _ s (le_n _)) as H.
  rewrite noDoubleSpace_infix in H.
  apply (H (pre ++ u) (v ++ post)).
  rewrite Es at 1. rewrite E, <- !app_assoc. reflexivity.
Qed.

(** X8: the text of a page has no two spaces in a row and no white space
    at its start or at its end. *)
Theorem page_text_is_tidy (textItems : list textItem) :
  (forall u v,
      reconstructLines textItems <> u ++ c_space :: c_space :: v) /\
  stops isWhiteSpace (reconstructLines textItems) /\
  stops isWhiteSpace (rev (reconstructLines textItems)).
Proof.
  unfold reconstructLines. split.
  - apply noDoubleSpace_infix, cleanUp_noDouble.
  - unfold cleanUp. apply trim_stops.
Qed.

Lemma collapse_fixed (t : jsstring) :
  noDoubleSpace t = true -> replaceWith spacesPattern (str " ") t = t.
Proof.
  induction t as [|a t IH]; [reflexivity|]. cbn [noDoubleSpace].
  intros H. apply andb_prop in H. destruct H as [Ha Ht].
  destruct (N.eqb_spec c_space a) as [<-|Hne].
  - change (c_space :: t) with ([c_space] ++ t).
    rewrite collapse_hit; [now rewrite (IH Ht) | reflexivity | discriminate|].
    destruct t as [|b t]; [exact I|]. cbn [stops].
    cbn [andb] in Ha. now apply negb_true_iff in Ha.
  - rewrite collapse_sep by (intros E; now apply Hne). now rewrite (IH Ht).
Qed.

Lemma trimStart_fixed (t : jsstring) :
  stops isWhiteSpace t -> trimStart t = t.
Proof.
  destruct t as [|c t]; [reflexivity|]. cbn [stops trimStart].
  now intros ->.
Qed.

Lemma trim_fixed (t : jsstring) :
  stops isWhiteSpace t -> stops isWhiteSpace (rev t) -> trim t = t.
Proof.
  intros H1 H2. unfold trim, trimEnd.
  rewrite (trimStart_fixed t H1), (trimStart_fixed (rev t) H2).
  apply rev_involutive.
Qed.

(** X9: cleaning up a text that is cleaned up changes nothing. *)
Theorem cleanUp_idempotent (pageText : jsstring) :
  cleanUp (cleanUp pageText) = cleanUp pageText.
Proof.
  unfold cleanUp at 1. rewrite (collapse_fixed _ (cleanUp_noDouble pageText)).
  unfold cleanUp. destruct (trim_stops (replaceWith spacesPattern (str " ") pageText)).
  now apply trim_fixed.
Qed.

(* ================================================================= *)
(** * Further properties of the page stream driver *)

Lemma pageLoop_trace (numPages : nat) (getPage : nat -> pageAnswer) :
  forall todo pageNum ctl,
  exists k,
    k <= todo /\
    (forall i, i < k -> exists items, getPage (pageNum + i) = PageItems items) /\
    ((k = todo /\
      pageLoop numPages getPage pageNum todo ctl
      = (inl tt,
         after ctl (flat_map (pageEvents numPages getPage) (seq pageNum k))))
     \/
     (k < todo /\
      exists e, getPage (pageNum + k) = PageFails e /\
                pageLoop numPages getPage pageNum todo ctl
                = (inr e,
                   after ctl
                     (flat_map (pageEvents numPages getPage) (seq pageNum k)
                      ++ [pageProgress (pageNum + k) numPages])))).
Proof.
  induction todo as [|todo IH]; intros pageNum ctl.
  - exists 0. split; [lia|]. split; [intros i Hi; lia|].
    left. split; [reflexivity|]. cbn [pageLoop seq flat_map]. unfold ret.
    now rewrite after_nil.
  - cbn [pageLoop]. unfold bind at 1. unfold processPage.
    unfold bind at 1. cbn [enqueue].
    fold (pageProgress pageNum numPages).
    destruct (getPage pageNum) as [e|items] eqn:Eg.
    + exists 0. split; [lia|]. split; [intros i Hi; lia|].
      right. split; [lia|]. exists e. rewrite Nat.add_0_r.
      split; [exact Eg|]. reflexivity.
    + cbn [enqueue queue closed].
      set (ctl' := mkController _ _).
      destruct (IH (S pageNum) ctl') as (k & Hk & Hok & Hrun).
      exists (S k). split; [lia|]. split.
      * intros [|i] Hi.
        -- rewrite Nat.add_0_r. now exists items.
        -- destruct (Hok i ltac:(lia)) as (it & Hit). exists it.
           now rewrite <- Nat.add_succ_comm.
      * assert (Ec : forall evs,
                   after ctl' evs
                   = after ctl (pageEvents numPages getPage pageNum ++ evs)).
        { intros evs. unfold after, ctl', pageEvents. cbn [queue closed].
          rewrite Eg. cbn [pageContent]. now rewrite <- !app_assoc. }
        destruct Hrun as [[-> Hrun]|[Hlt (e & Hf & Hrun)]].
        -- left. split; [reflexivity|]. cbn [seq flat_map].
           rewrite <- Ec. exact Hrun.
        -- right. split; [lia|]. exists e.
           rewrite <- Nat.add_succ_comm. split; [exact Hf|].
           cbn [seq flat_map]. rewrite <- app_assoc, <- Ec. exact Hrun.
Qed.

(** X10: the stream of a document that decodes with N pages is, event by
    event: the two opening progress events; for every page from 1 up to the
    last one extracted, its progress event and its page event, whose
    content is the annotated reconstruction of the page's items; then
    [complete], or, when a page fails, the progress event of that page and
    the error event with the failure's message. *)
Theorem document_stream_trace (numPages : nat)
    (getPage : nat -> pageAnswer) :
  exists k,
    k <= numPages /\
    (forall i, i < k -> exists items, getPage (1 + i) = PageItems items) /\
    ((k = numPages /\
      queue (POST (File (Document numPages getPage)))
      = streamHeader numPages
        ++ flat_map (pageEvents numPages getPage) (seq 1 numPages)
        ++ [Complete (str "Processing complete!")])
     \/
     (k < numPages /\
      exists e, getPage (1 + k) = PageFails e /\
                queue (POST (File (Document numPages getPage)))
                = streamHeader numPages
                  ++ flat_map (pageEvents numPages getPage) (seq 1 k)
                  ++ [pageProgress (1 + k) numPages;
                      ErrorEvent (errorMessage e)])).
Proof.
  rewrite POST_document. fold (streamHeader numPages).
  set (ctl := mkController _ _).
  destruct (pageLoop_trace numPages getPage numPages 1 ctl)
    as (k & Hk & Hok & Hrun).
  exists k. split; [exact Hk|]. split; [exact Hok|].
  destruct Hrun as [[-> Hrun]|[Hlt (e & Hf & Hrun)]]; rewrite Hrun.
  - left. split; [reflexivity|]. unfold after, ctl. cbn [queue].
    now rewrite <- !app_assoc.
  - right. split; [exact Hlt|]. exists e. split; [exact Hf|].
    unfold after, ctl. cbn [queue]. now rewrite <- !app_assoc.
Qed.

(** X11: whatever the request is (no form data, no file, a document that
    does not decode, pages that fail or not), the stream is closed at the
    end and holds one terminal event, which is its last event. *)
Theorem every_stream_ends_once (req : request) :
  closed (POST req) = true /\
  exists body last,
    queue (POST req) = body ++ [last] /\
    existsb isTerminal body = false /\
    isTerminal last = true.
Proof.
  destruct req as [e| |[e|numPages getPage]].
  - split; [reflexivity|]. now exists [], (ErrorEvent (errorMessage e)).
  - split; [reflexivity|].
    now exists [], (ErrorEvent (str "No file provided")).
  - split; [reflexivity|].
    now exists [Progress (str "Loading PDF...")],
               (ErrorEvent (errorMessage e)).
  - rewrite POST_document. set (ctl := mkController _ _).
    destruct (pageLoop_runs numPages getPage numPages 1 ctl)
      as (k & evs & _ & Hterm & _ & _ & Hrun).
    assert (Hb : existsb isTerminal (queue ctl ++ evs) = false)
      by (rewrite existsb_app, Hterm; reflexivity).
    destruct Hrun as [[_ Hrun]|[_ (e & _ & Hrun)]]; rewrite Hrun;
      cbn [after queue closed]; (split; [reflexivity|]).
    + now exists (queue ctl ++ evs), (Complete (str "Processing complete!")).
    + now exists (queue ctl ++ evs), (ErrorEvent (errorMessage e)).
Qed.

(* ================================================================= *)
(** * Further properties of the markup segmenter *)

(** ** Lines *)

Lemma split_not_nil (sep : N) (s : jsstring) : split sep s <> [].
Proof.
  destruct s as [|c s]; cbn [split]; [discriminate|].
  destruct (c =? sep)%N; [discriminate|].
  destruct (split sep s); discriminate.
Qed.

Lemma join_cons_char (sep : jsstring) (c : N) (l : jsstring)
    (ls : list jsstring) :
  join sep ((c :: l) :: ls) = c :: join sep (l :: ls).
Proof. cbn [join]. now destruct ls. Qed.

Lemma join_split (sep : N) (s : jsstring) : join [sep] (split sep s) = s.
Proof.
  induction s as [|c s IH]; [reflexivity|]. cbn [split].
  destruct (N.eqb_spec c sep) as [->|Hne].
  - pose proof (split_not_nil sep s) as Hn.
    cbn [join]. destruct (split sep s) as [|l ls]; [congruence|].
    cbn [app]. now rewrite IH.
  - pose proof (split_not_nil sep s) as Hn.
    destruct (split sep s) as [|l ls]; [congruence|].
    now rewrite join_cons_char, IH.
Qed.

Lemma split_length (sep : N) (s : jsstring) :
  length (split sep s) = S (count_occ N.eq_dec s sep).
Proof.
  induction s as [|c s IH]; [reflexivity|]. cbn [split count_occ].
  pose proof (split_not_nil sep s) as Hn.
  destruct (N.eqb_spec c sep) as [->|Hne].
  - destruct (N.eq_dec sep sep); [|congruence]. cbn [length]. now rewrite IH.
  - destruct (N.eq_dec c sep); [congruence|].
    destruct (split sep s) as [|l ls]; [congruence|]. exact IH.
Qed.

Lemma split_lines_free (sep : N) (s : jsstring) :
  Forall (fun line => ~ In sep line) (split sep s).
Proof.
  induction s as [|c s IH]; cbn [split].
  - constructor; [intros []|constructor].
  - destruct (N.eqb_spec c sep) as [->|Hne].
    + constructor; [intros []|exact IH].
    + destruct (split sep s) as [|l ls].
      * constructor; [|constructor]. intros [E|[]]. now apply Hne.
      * inversion IH as [|? ? Hl Hls]; subst. constructor; [|exact Hls].
        intros [E|Hin]; [now apply Hne | now apply Hl].
Qed.

Lemma map_literal_segments (lines : list jsstring) :
  map (fun line => flat_map literal (segments line)) lines = lines.
Proof.
  induction lines as [|l ls IH]; [reflexivity|]. cbn [map].
  now rewrite segments_cover, IH.
Qed.

(** X12: the renderer makes one line element for every line of the content
    (one more than the content has line breaks); no line holds a line
    break, and the spans of all lines, in their literal form and joined
    with line breaks, spell the content. *)
Theorem content_is_covered (content : jsstring) :
  length (MathRenderer content) = S (countBreaks content) /\
  Forall (fun line => ~ In c_nl line) (split c_nl content) /\
  join [c_nl]
       (map (fun line => flat_map literal (segments line))
            (split c_nl content))
  = content.
Proof.
  split; [|split].
  - unfold MathRenderer. rewrite length_map. apply split_length.
  - apply split_lines_free.
  - rewrite map_literal_segments. apply join_split.
Qed.

(** ** The spans of a line *)

Lemma mathSeparated_text_math (pending : jsstring) (d : bool)
    (tex : jsstring) (rest : list span) :
  mathSeparated (textBefore pending ++ MathSpan d tex :: rest)
  = mathSeparated rest.
Proof. now destruct pending. Qed.

Lemma execLoop_separated (d : bool) (ps : list piece) :
  forall pending tail,
    mathSeparated (textBefore tail) = true ->
    mathSeparated (fst (execLoop d ps pending)
                   ++ textBefore (snd (execLoop d ps pending) ++ tail))
    = true.
Proof.
  induction ps as [|[c|m caps] ps IH]; intros pending tail Ht;
    cbn [execLoop].
  - cbn [fst snd app]. now destruct (pending ++ tail).
  - apply IH, Ht.
  - specialize (IH [] tail Ht).
    destruct (execLoop d ps []) as [spans rest]. cbn [fst snd] in *.
    rewrite <- app_assoc. cbn [app].
    now rewrite mathSeparated_text_math.
Qed.

Lemma execLoop_spans (d : bool) (Q : bool -> jsstring -> Prop)
    (ps : list piece) :
  hitsSatisfy (fun _ caps => Q d (nth 0 caps [])) ps ->
  forall pending,
    Forall (fun sp => match sp with
                      | TextSpan t => t <> []
                      | MathSpan m tex => m = d /\ Q m tex
                      end) (fst (execLoop d ps pending)).
Proof.
  intros H. induction H as [|p ps Hp _ IH]; intros pending.
  - constructor.
  - destruct p as [c|m caps]; cbn [execLoop]; [apply IH|].
    specialize (IH []). destruct (execLoop d ps []) as [spans rest].
    cbn [fst] in *. apply Forall_app. split.
    + destruct pending; constructor; [discriminate | constructor].
    + constructor; [now split | exact IH].
Qed.

Lemma textBefore_ok (Q : bool -> jsstring -> Prop) (d : bool)
    (t : jsstring) :
  Forall (fun sp => match sp with
                    | TextSpan t => t <> []
                    | MathSpan m tex => m = d /\ Q m tex
                    end) (textBefore t).
Proof. destruct t; constructor; [discriminate | constructor]. Qed.

(** The first [x] after characters of the class is where a lazy run
    stops, if what follows wants [x]. *)
Lemma starL_first {B : Type} (p : N -> bool) (x : N) (c t : jsstring)
    (K : jsstring -> list B) :
  forallb p c = true -> ~ In x c ->
  (forall y t', y <> x -> K (y :: t') = []) ->
  exists others,
    flat_map K (starL p (c ++ x :: t)) = K (x :: t) ++ others.
Proof.
  intros Hc Hx HK. induction c as [|y c IH].
  - cbn [app starL flat_map]. eauto.
  - cbn [forallb] in Hc. apply andb_prop in Hc. destruct Hc as [Hy Hc].
    cbn [app starL]. rewrite Hy. cbn [flat_map].
    rewrite HK by (intros E; apply Hx; now left).
    apply IH; [exact Hc|]. intros H. apply Hx. now right.
Qed.

Lemma first_occurrence (x : N) (l : jsstring) :
  In x l -> exists c r, l = c ++ x :: r /\ ~ In x c.
Proof.
  induction l as [|y l IH]; intros H; [contradiction|].
  destruct (N.eq_dec y x) as [->|Hne].
  - exists [], l. split; [reflexivity | intros []].
  - destruct H as [E|H]; [congruence|].
    destruct (IH H) as (c & r & -> & Hc). exists (y :: c), r.
    split; [reflexivity|]. intros [E|Hin]; [congruence | now apply Hc].
Qed.

(** An inline match stops at the first dollar behind the opening one. *)
Lemma exec_inline_first (c r : jsstring) :
  forallb isDot c = true -> ~ In c_dollar c ->
  exec inlineMathRegex (c_dollar :: c ++ c_dollar :: r)
  = Some (c_dollar :: c ++ [c_dollar], [c], r).
Proof.
  intros Hc Hx. unfold exec, inlineMathRegex.
  rewrite matches_chr_accept.
  assert (E : matches (Grp (StarL isDot) @@ Chr c_dollar)
                      (c ++ c_dollar :: r) []
              = flat_map
                  (fun t => matches (Chr c_dollar) t
                              ([] ++ [consumed (c ++ c_dollar :: r) t]))
                  (starL isDot (c ++ c_dollar :: r))).
  { cbn [matches]. now rewrite !flat_map_map. }
  rewrite E.
  destruct (starL_first isDot c_dollar c r
              (fun t => matches (Chr c_dollar) t
                          ([] ++ [consumed (c ++ c_dollar :: r) t]))
              Hc Hx) as (others & ->).
  - intros y t' Hy. cbn [matches].
    destruct (N.eqb_spec y c_dollar); [contradiction | reflexivity].
  - cbn [matches]. rewrite N.eqb_refl. cbn [app fst snd].
    rewrite consumed_app.
    replace (c_dollar :: c ++ c_dollar :: r)
      with ((c_dollar :: c ++ [c_dollar]) ++ r)
      by (cbn [app]; now rewrite <- app_assoc).
    now rewrite consumed_app.
Qed.

Lemma exec_inline_content (s m rest : jsstring) caps :
  exec inlineMathRegex s = Some (m, caps, rest) ->
  forallb isDot (nth 0 caps []) = true /\
  includes c_dollar (nth 0 caps []) = false.
Proof.
  intros H. destruct (exec_in _ _ _ _ _ H) as [Hin E].
  unfold inlineMathRegex in Hin.
  apply in_chr_cat in Hin. destruct Hin as (s1 & E1 & Hin).
  apply in_cat in Hin. destruct Hin as (o1 & H1 & Hin).
  apply in_grp_starL in H1. destruct H1 as (tex & E3 & Hdot & Ec).
  apply in_chr in Hin. cbn [fst snd] in Hin. destruct Hin as [E5 Ec'].
  rewrite Ec', Ec. cbn [app nth]. split; [exact Hdot|].
  destruct (includes c_dollar tex) eqn:Ei; [exfalso | reflexivity].
  unfold includes in Ei. apply existsb_exists in Ei.
  destruct Ei as (x & Hx & Ex). apply N.eqb_eq in Ex. subst x.
  destruct (first_occurrence _ _ Hx) as (c & r2 & Etex & Hc).
  assert (Hcdot : forallb isDot c = true).
  { rewrite Etex, forallb_app in Hdot. now apply andb_prop in Hdot. }
  rewrite E1, E3, E5, Etex in H. rewrite <- app_assoc in H. cbn [app] in H.
  rewrite (exec_inline_first c _ Hcdot Hc) in H.
  injection H as _ Hcaps _. rewrite Ec', Ec, Etex in Hcaps.
  cbn [app] in Hcaps. injection Hcaps as Hcaps.
  apply (f_equal (@length N)) in Hcaps. rewrite length_app in Hcaps.
  cbn [length] in Hcaps. lia.
Qed.

Lemma exec_display_content (s m rest : jsstring) caps :
  exec displayMathRegex s = Some (m, caps, rest) ->
  forallb isDot (nth 0 caps []) = true.
Proof.
  intros H. destruct (exec_in _ _ _ _ _ H) as [Hin E].
  unfold displayMathRegex in Hin.
  apply in_chr_cat in Hin. destruct Hin as (s1 & E1 & Hin).
  apply in_chr_cat in Hin. destruct Hin as (s2 & E2 & Hin).
  apply in_cat in Hin. destruct Hin as (o1 & H1 & Hin).
  apply in_grp_starL in H1. destruct H1 as (tex & E3 & Hdot & Ec).
  apply in_chr_cat in Hin. destruct Hin as (s4 & E4 & Hin).
  apply in_chr in Hin. cbn [fst snd] in Hin. destruct Hin as [E5 Ec'].
  rewrite Ec', Ec. exact Hdot.
Qed.

(** X13: in one line all math spans have the same mode, display exactly
    when the line has a [$$...$$]; no text span is empty and no two text
    spans follow each other; the content of a math span holds no line
    terminator, and that of an inline span no dollar. *)
Theorem spans_of_a_line (line : jsstring) :
  Forall (fun sp =>
            match sp with
            | TextSpan t => t <> []
            | MathSpan displayMode tex =>
                displayMode = existsb isHit (scan displayMathRegex line) /\
                forallb isDot tex = true /\
                (displayMode || negb (includes c_dollar tex)) = true
            end) (segments line) /\
  mathSeparated (segments line) = true.
Proof.
  unfold segments.
  destruct (existsb isHit (scan displayMathRegex line)) eqn:Ed.
  - split.
    + pose proof (execLoop_spans true
                    (fun m tex => forallb isDot tex = true /\
                                  (m || negb (includes c_dollar tex)) = true)
                    (scan displayMathRegex line)) as H.
      destruct (execLoop true (scan displayMathRegex line) [])
        as [spans rest] eqn:El.
      apply Forall_app. split; [|apply (textBefore_ok _ true)].
      specialize (H (scan_hits _ _
                       (fun s m caps rest E =>
                          conj (exec_display_content s m rest caps E) eq_refl)
                       line) []).
      rewrite El in H. exact H.
    + pose proof (execLoop_separated true (scan displayMathRegex line)
                    [] [] eq_refl) as H.
      destruct (execLoop true (scan displayMathRegex line) [])
        as [spans rest]. cbn [fst snd] in H. now rewrite app_nil_r in H.
  - split.
    + pose proof (execLoop_spans false
                    (fun m tex => forallb isDot tex = true /\
                                  (m || negb (includes c_dollar tex)) = true)
                    (scan inlineMathRegex line)) as H.
      destruct (execLoop false (scan inlineMathRegex line) [])
        as [spans rest] eqn:El.
      apply Forall_app. split; [|apply (textBefore_ok _ false)].
      assert (Hh : hitsSatisfy
                     (fun _ caps =>
                        forallb isDot (nth 0 caps []) = true /\
                        (false || negb (includes c_dollar (nth 0 caps [])))
                        = true)
                     (scan inlineMathRegex line)).
      { apply scan_hits. intros s m caps rest0 E.
        destruct (exec_inline_content _ _ _ _ E) as [H1 H2].
        split; [exact H1|]. now rewrite H2. }
      specialize (H Hh []). rewrite El in H. exact H.
    + pose proof (execLoop_separated false (scan inlineMathRegex line)
                    [] [] eq_refl) as H.
      destruct (execLoop false (scan inlineMathRegex line) [])
        as [spans rest]. cbn [fst snd] in H. now rewrite app_nil_r in H.
Qed.

(** ** A line without a dollar *)

Lemma execLoop_gaps (d : bool) (l pending : jsstring) :
  execLoop d (map Gap l) pending = ([], pending ++ l).
Proof.
  revert pending. induction l as [|c l IH]; intros pending; cbn [map execLoop].
  - now rewrite app_nil_r.
  - rewrite IH. now rewrite <- app_assoc.
Qed.

Lemma existsb_isHit_gaps (l : jsstring) : existsb isHit (map Gap l) = false.
Proof. induction l as [|c l IH]; [reflexivity|]. exact IH. Qed.

(** X14: a line without a dollar is one text span holding the line, and the
    empty line is the placeholder. *)
Theorem plain_line_is_one_span (line : jsstring) :
  includes c_dollar line = false ->
  segments line = textBefore line /\
  renderLine line
  = [TextSpan (match line with [] => [c_nbsp] | _ :: _ => line end)].
Proof.
  intros H.
  assert (Hin : ~ In c_dollar line).
  { intros Hin. unfold includes in H.
    assert (Ht : existsb (N.eqb c_dollar) line = true)
      by (apply existsb_exists; exists c_dollar; split;
          [exact Hin | apply N.eqb_refl]).
    congruence. }
  assert (E : segments line = textBefore line).
  { unfold segments.
    rewrite (scan_untriggered c_dollar displayMathRegex line eq_refl Hin).
    rewrite existsb_isHit_gaps.
    rewrite (scan_untriggered c_dollar inlineMathRegex line eq_refl Hin).
    now rewrite execLoop_gaps. }
  split; [exact E|]. unfold renderLine. rewrite E. now destruct line.
Qed.

(** A sentence. *)
Lemma plain_line_witness :
  includes c_dollar (str "No math here.") = false /\
  segments (str "No math here.") = [TextSpan (str "No math here.")].
Proof.
  split; [reflexivity|].
  exact (proj1 (plain_line_is_one_span (str "No math here.") eq_refl)).
Defined.

(* ================================================================= *)
(** * Properties of the page of the client *)

(** ** Chunks and lines *)

Lemma split_app (sep : N) (u v : jsstring) :
  split sep (u ++ v)
  = removelast (split sep u) ++ split sep (last (split sep u) [] ++ v).
Proof.
  induction u as [|c u IH]; [reflexivity|]. cbn [app split].
  pose proof (split_not_nil sep u) as Hn.
  destruct (c =? sep)%N eqn:Ec.
  - rewrite IH. destruct (split sep u) as [|l ls]; [congruence|].
    reflexivity.
  - rewrite IH. destruct (split sep u) as [|l ls]; [congruence|].
    destruct ls as [|l2 ls].
    + cbn [removelast last app]. cbn [app split]. now rewrite Ec.
    + reflexivity.
Qed.

Lemma last_of_app {A : Type} (l1 l2 : list A) (d : A) :
  l2 <> [] -> last (l1 ++ l2) d = last l2 d.
Proof.
  intros H. induction l1 as [|a l1 IH]; [reflexivity|].
  cbn [app last]. rewrite IH. destruct (l1 ++ l2) eqn:E; [|reflexivity].
  apply app_eq_nil in E. destruct E as [_ E]. congruence.
Qed.

Lemma last_in_split_free (sep : N) (s : jsstring) :
  ~ In sep (last (split sep s) []).
Proof.
  pose proof (split_lines_free sep s) as H.
  pose proof (split_not_nil sep s) as Hn.
  destruct (exists_last Hn) as (ls & l & E). rewrite E in *.
  rewrite last_last. apply Forall_app in H. destruct H as [_ H].
  now inversion H.
Qed.

Lemma split_free (sep : N) (s : jsstring) :
  ~ In sep s -> split sep s = [s].
Proof.
  induction s as [|c s IH]; intros H; [reflexivity|]. cbn [split].
  destruct (N.eqb_spec c sep) as [->|Hne].
  - destruct H. now left.
  - rewrite IH; [reflexivity|]. intros Hin. apply H. now right.
Qed.

Section Reading.

Variable value : Type.
Variable parseData : jsstring -> parsedLine value.

Lemma handleChunks_from (chunks : list jsstring) :
  forall buffer st,
    ~ In c_nl buffer ->
    fold_left (handleChunk parseData) chunks (buffer, st)
    = (last (split c_nl (buffer ++ concat chunks)) [],
       fold_left (handleLine parseData)
                 (completeLines (buffer ++ concat chunks)) st).
Proof.
  unfold completeLines.
  induction chunks as [|chunk chunks IH]; intros buffer st Hb.
  - cbn [concat fold_left]. rewrite app_nil_r, (split_free _ _ Hb).
    reflexivity.
  - cbn [concat fold_left]. unfold handleChunk at 2.
    rewrite IH by apply last_in_split_free.
    rewrite (app_assoc buffer chunk (concat chunks)).
    rewrite (split_app c_nl (buffer ++ chunk) (concat chunks)).
    pose proof (split_not_nil c_nl
                  (last (split c_nl (buffer ++ chunk)) [] ++ concat chunks))
      as Hn.
    rewrite removelast_app by exact Hn.
    rewrite last_of_app by exact Hn.
    now rewrite fold_left_app.
Qed.

(** X15: however the stream is cut into chunks, the page handles the lines
    of the whole stream that end with a line break, in order, and nothing
    else; what comes behind the last line break stays in the buffer and
    is never handled. *)
Theorem chunks_do_not_matter (chunks : list jsstring)
    (st : homeState value) :
  fold_left (handleChunk parseData) chunks ([], st)
  = (last (split c_nl (concat chunks)) [],
     fold_left (handleLine parseData) (completeLines (concat chunks)) st).
Proof. apply (handleChunks_from chunks [] st). intros []. Qed.

(** ** Frames *)

Lemma split_line (sep : N) (l v : jsstring) :
  ~ In sep l -> split sep (l ++ sep :: v) = l :: split sep v.
Proof.
  induction l as [|c l IH]; intros H; cbn [app split].
  - now rewrite N.eqb_refl.
  - destruct (N.eqb_spec c sep) as [->|Hne]; [destruct H; now left|].
    rewrite IH; [reflexivity|]. intros Hin. apply H. now right.
Qed.

Lemma dataLine_free (p : jsstring) : ~ In c_nl p -> ~ In c_nl (dataLine p).
Proof.
  intros Hp Hin. unfold dataLine in Hin. apply in_app_or in Hin.
  destruct Hin as [Hin|Hin]; [|now apply Hp].
  cbn in Hin. repeat (destruct Hin as [Hin|Hin]; [discriminate Hin|]).
  exact Hin.
Qed.

Lemma split_frames (payloads : list jsstring) :
  Forall (fun p => ~ In c_nl p) payloads ->
  split c_nl (flat_map frame payloads)
  = flat_map (fun p => [dataLine p; []]) payloads ++ [[]].
Proof.
  induction 1 as [|p ps Hp _ IH]; [reflexivity|].
  cbn [flat_map]. unfold frame at 1. rewrite <- app_assoc. cbn [app].
  rewrite split_line by now apply dataLine_free.
  change (c_nl :: flat_map frame ps) with ([] ++ c_nl :: flat_map frame ps).
  rewrite split_line by (intros []). now rewrite IH.
Qed.

Lemma handleLine_empty (st : homeState value) :
  handleLine parseData st [] = st.
Proof. reflexivity. Qed.

Lemma handleLine_frames (payloads : list jsstring) :
  forall st,
    fold_left (handleLine parseData)
              (flat_map (fun p => [dataLine p; []]) payloads) st
    = fold_left (handleData parseData) payloads st.
Proof.
  induction payloads as [|p ps IH]; intros st; [reflexivity|].
  cbn [flat_map app fold_left]. rewrite handleLine_empty. apply IH.
Qed.

Lemma handleChunks_frames (chunks payloads : list jsstring)
    (st : homeState value) :
  concat chunks = flat_map frame payloads ->
  Forall (fun p => ~ In c_nl p) payloads ->
  fold_left (handleChunk parseData) chunks ([], st)
  = ([], fold_left (handleData parseData) payloads st).
Proof.
  intros E Hp. rewrite (handleChunks_from chunks [] st) by (intros []).
  cbn [app]. unfold completeLines.
  rewrite E, (split_frames payloads Hp).
  rewrite last_last, removelast_last. now rewrite handleLine_frames.
Qed.

(** X16: if the stream is the frames [data: <payload>] with two line breaks
    each, and no payload holds a line break, then the page, however the
    stream is cut into chunks, handles exactly the payloads, in order, and
    ends with an empty buffer. *)
Theorem frames_are_recovered (chunks payloads : list jsstring)
    (st : homeState value) :
  concat chunks = flat_map frame payloads ->
  Forall (fun p => ~ In c_nl p) payloads ->
  fold_left (handleChunk parseData) chunks ([], st)
  = ([], fold_left (handleData parseData) payloads st).
Proof. exact (handleChunks_frames chunks payloads st). Qed.

(** ** Results *)

Lemma handleLine_results (st : homeState value) (line : jsstring) :
  results (handleLine parseData st line)
  = results st ++ pagesOf parseData [line] /\
  file (handleLine parseData st line) = file st /\
  processing (handleLine parseData st line) = processing st.
Proof.
  unfold handleLine, pagesOf. cbn [flat_map].
  destruct (startsWith (str "data: ") line).
  - destruct (parseData (skipn 6 line)); cbn;
      rewrite ?app_nil_r; repeat split; reflexivity.
  - cbn. rewrite app_nil_r. repeat split; reflexivity.
Qed.

Lemma handleLines_results (lines : list jsstring) :
  forall st,
    results (fold_left (handleLine parseData) lines st)
    = results st ++ pagesOf parseData lines /\
    file (fold_left (handleLine parseData) lines st) = file st /\
    processing (fold_left (handleLine parseData) lines st) = processing st.
Proof.
  induction lines as [|line lines IH]; intros st.
  - cbn. rewrite app_nil_r. repeat split; reflexivity.
  - cbn [fold_left].
    destruct (IH (handleLine parseData st line)) as (H1 & H2 & H3).
    destruct (handleLine_results st line) as (E1 & E2 & E3).
    rewrite H1, H2, H3, E1, E2, E3, <- app_assoc.
    assert (Ep : pagesOf parseData (line :: lines)
                 = pagesOf parseData [line] ++ pagesOf parseData lines).
    { unfold pagesOf. cbn [flat_map]. now rewrite app_nil_r. }
    rewrite Ep. repeat split; reflexivity.
Qed.

(** X17: while a stream is read, the results only grow: after the chunks
    they are the results from before followed by the data of the page
    messages of the complete lines, in the order of the stream; progress
    messages, error messages, lines that do not parse and lines without
    [data: ] add and remove nothing. *)
Theorem results_are_the_pages (chunks : list jsstring)
    (st : homeState value) :
  results (snd (fold_left (handleChunk parseData) chunks ([], st)))
  = results st ++ pagesOf parseData (completeLines (concat chunks)).
Proof.
  rewrite (handleChunks_from chunks [] st) by (intros []). cbn [app snd].
  apply (handleLines_results _ st).
Qed.

(** ** An upload *)

(** X18: when a file is chosen, an upload ends with [processing] off
    whatever the request answers, keeps the file, and leaves as results the
    pages of the lines read, none of the results from before: a failure of
    [fetch], a response that is not ok or has no body gives no result, and
    a failure while reading keeps the pages read so far. *)
Theorem upload_always_finishes (resp : response) (st : homeState value)
    (chosen : selectedFile) :
  file st = Some chosen ->
  processing (handleUpload parseData resp st) = false /\
  file (handleUpload parseData resp st) = Some chosen /\
  results (handleUpload parseData resp st)
  = match resp with
    | Body chunks _ => pagesOf parseData (completeLines (concat chunks))
    | _ => []
    end.
Proof.
  intros Hf. unfold handleUpload. rewrite Hf.
  destruct resp as [e| | |chunks failure];
    try (cbn; repeat split; (exact Hf || reflexivity)).
  set (st0 := setResults _ [] _).
  rewrite (handleChunks_from chunks [] st0) by (intros []). cbn [app snd].
  destruct (handleLines_results (completeLines (concat chunks)) st0)
    as (Hr & H2 & _).
  assert (E0 : results st0 = []) by reflexivity.
  assert (F0 : file st0 = Some chosen) by exact Hf.
  rewrite E0 in Hr. rewrite F0 in H2. cbn [app] in Hr.
  destruct failure; cbn [setError setProcessing file processing results];
    rewrite ?Hr, ?H2; repeat split; reflexivity.
Qed.

End Reading.

(** A stream of two frames cut in the middle of a line and between the two
    line breaks of a frame. *)
Lemma frames_are_recovered_witness :
  concat [str "data: a"; [c_nl]; [c_nl] ++ str "da"; str "ta: b" ++ [c_nl; c_nl]]
  = flat_map frame [str "a"; str "b"] /\
  Forall (fun p => ~ In c_nl p) [str "a"; str "b"] /\
  fold_left (handleChunk everyLineAPage)
            [str "data: a"; [c_nl]; [c_nl] ++ str "da";
             str "ta: b" ++ [c_nl; c_nl]]
            ([], readyState)
  = ([], fold_left (handleData everyLineAPage) [str "a"; str "b"] readyState).
Proof.
  assert (H : Forall (fun p => ~ In c_nl p) [str "a"; str "b"]).
  { repeat constructor; cbn; intros [E|E]; (discriminate E || exact E). }
  split; [reflexivity|]. split; [exact H|].
  exact (frames_are_recovered (list N) everyLineAPage
           [str "data: a"; [c_nl]; [c_nl] ++ str "da";
            str "ta: b" ++ [c_nl; c_nl]]
           [str "a"; str "b"] readyState eq_refl H).
Defined.

(** An upload whose reading fails after one page. *)
Lemma upload_always_finishes_witness :
  file readyState = Some (mkSelectedFile (str "application/pdf")) /\
  processing
    (handleUpload everyLineAPage
       (Body [frame (str "p1"); str "data: p"] (Some OtherValue))
       readyState) = false /\
  results
    (handleUpload everyLineAPage
       (Body [frame (str "p1"); str "data: p"] (Some OtherValue))
       readyState) = [str "p1"].
Proof.
  split; [reflexivity|].
  destruct (upload_always_finishes (list N) everyLineAPage
              (Body [frame (str "p1"); str "data: p"] (Some OtherValue))
              readyState _ eq_refl) as (H1 & _ & H3).
  split; [exact H1 | exact H3].
Defined.

(* ================================================================= *)
(** * From the driver to the page *)

Lemma handleData_received {value : Type}
    (parseData : jsstring -> parsedLine value) (stringify : event -> jsstring)
    (msg : jsstring -> value) (page : nat -> jsstring -> value)
    (q : list event) :
  Forall (fun e => ~ In c_nl (stringify e) /\
                   parseData (stringify e) = received msg page e) q ->
  forall st,
    results (fold_left (handleData parseData) (map stringify q) st)
    = results st ++ pagesSent page q.
Proof.
  induction 1 as [|e q [_ He] _ IH]; intros st.
  - cbn. now rewrite app_nil_r.
  - cbn [map fold_left]. rewrite IH.
    unfold pagesSent. cbn [flat_map]. rewrite app_assoc. f_equal.
    unfold handleData, handleLine, dataLine.
    change (startsWith (str "data: ") (str "data: " ++ stringify e))
      with (sameText (firstn 6 (str "data: " ++ stringify e)) (str "data: ")).
    change (firstn 6 (str "data: " ++ stringify e)) with (str "data: ").
    change (skipn 6 (str "data: " ++ stringify e)) with (stringify e).
    change (sameText (str "data: ") (str "data: ")) with true.
    cbn iota. rewrite He.
    destruct e; cbn; now rewrite ?app_nil_r.
Qed.

(** X19: if [JSON.stringify] gives, for the events of a stream, texts
    without a line break that [JSON.parse] reads back, then the page,
    however the stream reaches it in chunks, adds to its results exactly
    the pages that the driver has sent, in the order of the pages, and ends
    with an empty buffer. *)
Theorem pages_arrive_in_order {value : Type}
    (parseData : jsstring -> parsedLine value) (stringify : event -> jsstring)
    (msg : jsstring -> value) (page : nat -> jsstring -> value)
    (req : request) (chunks : list jsstring) (st : homeState value) :
  concat chunks = wire stringify req ->
  Forall (fun e => ~ In c_nl (stringify e) /\
                   parseData (stringify e) = received msg page e)
         (queue (POST req)) ->
  fst (fold_left (handleChunk parseData) chunks ([], st)) = [] /\
  results (snd (fold_left (handleChunk parseData) chunks ([], st)))
  = results st ++ pagesSent page (queue (POST req)).
Proof.
  intros E H.
  assert (Ew : concat chunks = flat_map frame (map stringify (queue (POST req)))).
  { rewrite E. unfold wire. now rewrite flat_map_map. }
  assert (Hp : Forall (fun p => ~ In c_nl p) (map stringify (queue (POST req)))).
  { apply Forall_map. eapply Forall_impl; [|exact H]. now intros e [He _]. }
  rewrite (handleChunks_frames value parseData chunks _ st Ew Hp).
  cbn [fst snd]. split; [reflexivity|].
  now apply (handleData_received parseData stringify msg page).
Qed.

(** The stream of a document of one page, in two chunks. *)
Lemma pages_arrive_in_order_witness :
  concat [str "data: PLoading PDF..."; skipn 21 (wire tagEvent onePageDocument)]
  = wire tagEvent onePageDocument /\
  results
    (snd (fold_left (handleChunk readTag)
            [str "data: PLoading PDF...";
             skipn 21 (wire tagEvent onePageDocument)]
            ([], readyState)))
  = [str "old"; str "$$x=1$$"].
Proof.
  assert (E : concat [str "data: PLoading PDF...";
                      skipn 21 (wire tagEvent onePageDocument)]
              = wire tagEvent onePageDocument) by reflexivity.
  split; [exact E|].
  refine (proj2 (pages_arrive_in_order readTag tagEvent (fun m => m)
                   (fun _ content => content) onePageDocument _ readyState
                   E _)).
  repeat constructor; cbn; intros H;
    repeat (destruct H as [H|H]; [discriminate H|]); exact H.
Defined.

(* ================================================================= *)
(** * The file of the page *)

Lemma act_keeps_pdf {value : Type} (parseData : jsstring -> parsedLine value)
    (st : homeState value) (a : userAction) :
  processing st = false ->
  (forall f, file st = Some f -> fileType f = str "application/pdf") ->
  processing (act parseData st a) = false /\
  (forall f, file (act parseData st a) = Some f ->
             fileType f = str "application/pdf").
Proof.
  intros Hp Hf. destruct a as [selected|resp]; cbn [act].
  - unfold handleFileChange. destruct selected as [sel|]; [|now split].
    unfold sameText.
    destruct (list_eq_dec N.eq_dec (fileType sel) (str "application/pdf"))
      as [E|_]; cbn; (split; [exact Hp|]); intros f H.
    + injection H as <-. exact E.
    + discriminate H.
  - unfold handleUpload. destruct (file st) as [chosen|] eqn:Ef.
    + assert (Hc : fileType chosen = str "application/pdf") by now apply Hf.
      destruct resp as [e| | |chunks failure];
        try (cbn; split; [reflexivity|]; intros f H; rewrite Ef in H;
             injection H as <-; exact Hc).
      set (st0 := setResults _ [] _).
      rewrite (handleChunks_from value parseData chunks [] st0)
        by (intros []).
      cbn [app snd].
      destruct (handleLines_results value parseData
                  (completeLines (concat chunks)) st0) as (_ & H2 & _).
      assert (F0 : file st0 = Some chosen) by exact Ef.
      rewrite F0 in H2.
      destruct failure;
        cbn [setError setProcessing file processing results];
        (split; [reflexivity|]); intros f H; rewrite H2 in H;
        injection H as <-; exact Hc.
    + cbn. split; [exact Hp|]. intros f H. rewrite Ef in H. discriminate H.
Qed.

Lemma acts_keep_pdf {value : Type} (parseData : jsstring -> parsedLine value)
    (actions : list userAction) :
  forall st : homeState value,
    processing st = false ->
    (forall f, file st = Some f -> fileType f = str "application/pdf") ->
    processing (fold_left (act parseData) actions st) = false /\
    (forall f, file (fold_left (act parseData) actions st) = Some f ->
               fileType f = str "application/pdf").
Proof.
  induction actions as [|a actions IH]; intros st Hp Hf; [now split|].
  cbn [fold_left].
  destruct (act_keeps_pdf parseData st a Hp Hf) as [Hp' Hf'].
  now apply IH.
Qed.

(** X20: whatever files the user chooses and whatever the uploads answer,
    one after the other from the start of the page, the file that the page
    holds, if it holds one, has the type [application/pdf], so that no
    other file is ever uploaded, and [processing] is off again. *)
Theorem only_a_pdf_is_held {value : Type}
    (parseData : jsstring -> parsedLine value)
    (actions : list userAction) (f : selectedFile) :
  file (fold_left (act parseData) actions initialState) = Some f ->
  fileType f = str "application/pdf" /\
  processing (fold_left (act parseData) actions initialState) = false.
Proof.
  intros H.
  destruct (acts_keep_pdf parseData actions initialState eq_refl) as [Hp Hf].
  - intros g Hg. discriminate Hg.
  - split; [now apply Hf | exact Hp].
Qed.

(** A text file, then a PDF, then an upload. *)
Lemma only_a_pdf_is_held_witness :
  file (fold_left (act everyLineAPage) sampleActions initialState)
  = Some (mkSelectedFile (str "application/pdf")) /\
  processing (fold_left (act everyLineAPage) sampleActions initialState)
  = false.
Proof.
  split; [reflexivity|].
  exact (proj2 (only_a_pdf_is_held everyLineAPage sampleActions
                  (mkSelectedFile (str "application/pdf")) eq_refl)).
Defined.
